(** * Typed-transaction envelopes (ethereum/cancun/transactions.py)

    A shallow embedding of [encode_transaction] and [decode_transaction]
    together with the four transaction records they work on, and of the
    structural codec ([rlp]) those two functions call. *)

From Stdlib Require Import List PeanoNat NArith Lia Bool String Eqdep_dec.
From Stdlib Require Import Strings.Byte.
Import ListNotations.

Local Open Scope N_scope.

(** ** Exceptions and the result of a call *)

(** The exception classes that the two functions (and the codec under them)
    raise. [Exception_] is a bare [Exception] with its message;
    [InvalidBlock] is the class imported from [ethereum.exceptions];
    [IndexError] and [ValueError] are those of the language. *)
Inductive exception : Type :=
| Exception_ (msg : string)
| InvalidBlock
| IndexError
| ValueError.

Inductive result (A : Type) : Type :=
| Ok (a : A)
| Raise (e : exception).

Arguments Ok {A} a.
Arguments Raise {A} e.

Definition bind {A B : Type} (m : result A) (k : A -> result B) : result B :=
  match m with
  | Ok a => k a
  | Raise e => Raise e
  end.

Notation "x <- m ;; k" := (bind m (fun x => k))
  (at level 61, m at next level, right associativity).
Notation "' pat <- m ;; k" := (bind m (fun x => match x with pat => k end))
  (at level 61, pat pattern, m at next level, right associativity).

(** Raises [e] unless [cond] holds. *)
Definition ensure (cond : bool) (e : exception) : result unit :=
  if cond then Ok tt else Raise e.

(** ** Byte strings and big-endian integers (base_types) *)

(** Modelled from the spec: [Bytes] (base_types, missing from the
    sources), a variable-length byte string. *)
Definition Bytes : Type := list byte.

(** Modelled from the spec: [Uint] (base_types, missing from the
    sources), an arbitrary-precision non-negative integer. *)
Definition Uint : Type := N.

(** The byte with value [n mod 256]. *)
Definition byte_of_N (n : N) : byte :=
  match Byte.of_N (n mod 256) with
  | Some b => b
  | None => x00
  end.

(** The base-256 digits of [n], lowest first, with no zero digit at the
    top; at most [fuel] of them. *)
Fixpoint to_le_bytes_fuel (fuel : nat) (n : N) : Bytes :=
  match fuel with
  | O => []
  | S f => if n =? 0 then [] else byte_of_N n :: to_le_bytes_fuel f (n / 256)
  end.

(** Modelled from the spec: [to_be_bytes] (base_types, missing from the
    sources), the canonical form of an integer: big-endian, shortest
    form, no leading zero padding; zero is the empty byte string. The
    fuel is the number of bits of [n], more than its number of bytes. *)
Definition to_be_bytes (n : N) : Bytes :=
  rev (to_le_bytes_fuel (N.to_nat (N.size n)) n).

(** Modelled from the spec: [from_be_bytes] (base_types, missing from the
    sources), the integer a big-endian byte string stands for. *)
Definition from_be_bytes (b : Bytes) : N :=
  fold_left (fun acc x => 256 * acc + Byte.to_N x) b 0.

(** The integer a little-endian byte string stands for. *)
Definition from_le_bytes (b : Bytes) : N :=
  fold_right (fun x acc => 256 * acc + Byte.to_N x) 0 b.

(** True for a byte string that starts with a zero byte, which no
    canonical integer does. *)
Definition leading_zero (b : Bytes) : bool :=
  match b with
  | x :: _ => Byte.to_N x =? 0
  | [] => false
  end.

(** ** The structural codec (rlp) *)

#[local] Unset Elimination Schemes.

(** Modelled from the spec: the values the structural codec operates on
    ([rlp.RLP], missing from the sources): a byte string or a list of
    such values, nested to any depth. Non-negative integers enter as
    their canonical big-endian byte string. *)
Inductive RLP : Type :=
| RBytes (raw : Bytes)
| RList (items : list RLP).

#[local] Set Elimination Schemes.

Module rlp.

(** True for a byte string that is its own encoding: one byte below 0x80. *)
Definition is_single_low (raw : Bytes) : bool :=
  match raw with
  | [b] => Byte.to_N b <? 0x80
  | _ => false
  end.

(** Modelled from the spec: the length prefix of the length-prefixed
    encoding (the codec's source is missing). A payload shorter than 56
    bytes has the one-byte prefix [offset + length]; a longer one has the
    byte [offset + 55 + k] followed by the length in [k] big-endian bytes.
    No length prefix exists for a payload of 2^64 bytes or more. *)
Definition encode_length (offset : N) (len : N) : result Bytes :=
  if len <? 56 then Ok [byte_of_N (offset + len)]
  else if len <? 2 ^ 64 then
    let len_bytes := to_be_bytes len in
    Ok (byte_of_N (offset + 55 + N.of_nat (List.length len_bytes)) :: len_bytes)
  else Raise ValueError.

(** A single byte below 0x80 is its own encoding; any other byte string
    is its length prefix (offset 0x80) followed by its bytes. *)
Definition encode_bytes (raw : Bytes) : result Bytes :=
  if is_single_low raw then Ok raw
  else
    prefix <- encode_length 0x80 (N.of_nat (List.length raw)) ;;
    Ok (prefix ++ raw).

(** A list is its length prefix (offset 0xc0) followed by the
    concatenated encodings of its items. *)
Definition encode_sequence (joined : Bytes) : result Bytes :=
  prefix <- encode_length 0xC0 (N.of_nat (List.length joined)) ;;
  Ok (prefix ++ joined).

(** Modelled from the spec: [rlp.encode] (missing from the sources), the
    recursive length-prefixed encoding of nested lists and byte strings. *)
Fixpoint encode (x : RLP) : result Bytes :=
  match x with
  | RBytes raw => encode_bytes raw
  | RList items =>
      joined <- (fix join (l : list RLP) : result Bytes :=
                   match l with
                   | [] => Ok []
                   | y :: ys =>
                       e <- encode y ;;
                       es <- join ys ;;
                       Ok (e ++ es)
                   end) items ;;
      encode_sequence joined
  end.

(** The concatenated encodings of the items of a list, the inner loop of
    [encode] on a list. *)
Fixpoint join_encodings (l : list RLP) : result Bytes :=
  match l with
  | [] => Ok []
  | y :: ys =>
      e <- encode y ;;
      es <- join_encodings ys ;;
      Ok (e ++ es)
  end.

(** Reads a length prefix whose first byte has the value [first]; the
    bytes after that first byte are [rest]. Returns the payload length and
    the bytes after the prefix. A length that has a shorter prefix, or that
    is written with a leading zero byte, is not canonical and is refused. *)
Definition decode_length (offset first : N) (rest : Bytes)
  : result (N * Bytes) :=
  let n := first - offset in
  if n <? 56 then Ok (n, rest)
  else
    let k := N.to_nat (n - 55) in
    _ <- ensure (n - 55 <=? N.of_nat (List.length rest)) InvalidBlock ;;
    let len_bytes := firstn k rest in
    _ <- ensure (negb (leading_zero len_bytes)) InvalidBlock ;;
    let len := from_be_bytes len_bytes in
    _ <- ensure (56 <=? len) InvalidBlock ;;
    Ok (len, skipn k rest).

(** [data[:len]] and [data[len:]], once [len] is known to be in range. *)
Definition split_payload (len : N) (data : Bytes) : result (Bytes * Bytes) :=
  _ <- ensure (len <=? N.of_nat (List.length data)) InvalidBlock ;;
  Ok (firstn (N.to_nat len) data, skipn (N.to_nat len) data).

(** The loop over the concatenated encodings of the items of a list: each
    turn decodes one item with [item] and goes on with what is left. Every
    item takes at least one byte, so [List.length joined] turns are enough. *)
Fixpoint decode_joined_encodings (item : Bytes -> result (RLP * Bytes))
    (turns : nat) (joined : Bytes) {struct turns} : result (list RLP) :=
  match joined with
  | [] => Ok []
  | _ :: _ =>
      match turns with
      | O => Raise InvalidBlock
      | S t =>
          '(x, rest) <- item joined ;;
          xs <- decode_joined_encodings item t rest ;;
          Ok (x :: xs)
      end
  end.

(** Decodes the first item of [data] and returns it with the bytes that
    follow it. [fuel] bounds the nesting depth of lists. *)
Fixpoint decode_item (fuel : nat) (data : Bytes) : result (RLP * Bytes) :=
  match fuel with
  | O => Raise InvalidBlock
  | S f =>
      match data with
      | [] => Raise InvalidBlock
      | b :: rest =>
          let n := Byte.to_N b in
          if n <? 0x80 then Ok (RBytes [b], rest)
          else if n <? 0xC0 then
            '(len, rest1) <- decode_length 0x80 n rest ;;
            '(raw, rest2) <- split_payload len rest1 ;;
            _ <- ensure (negb (is_single_low raw)) InvalidBlock ;;
            Ok (RBytes raw, rest2)
          else
            '(len, rest1) <- decode_length 0xC0 n rest ;;
            '(joined, rest2) <- split_payload len rest1 ;;
            items <- decode_joined_encodings (decode_item f)
                       (List.length joined) joined ;;
            Ok (RList items, rest2)
      end
  end.

(** Modelled from the spec: [rlp.decode] (missing from the sources), the
    inverse of [encode]: the value encoded at the start of the input. The
    nesting depth of a value is at most the length of its encoding, which
    is the fuel given to [decode_item]. A malformed payload is the spec's
    invalid-envelope error, a block-validity failure. *)
Definition decode (encoded_data : Bytes) : result RLP :=
  '(x, _) <- decode_item (List.length encoded_data) encoded_data ;;
  Ok x.

(** Modelled from the spec: the shapes the codec encodes from and decodes
    into (the [cls] argument of [decode_to]; the codec's source is
    missing). [to_rlp] is how [encode] sees a value of the shape: a byte
    string, or the list of its items or fields in declared order.
    [from_rlp] rebuilds a value from a decoded payload and fails with the
    invalid-envelope error when the payload has another shape. *)
Class Shape (A : Type) : Type := {
  to_rlp : A -> RLP;
  from_rlp : RLP -> result A
}.

(** Modelled from the spec: [rlp.decode_to(cls, encoded_data)]. *)
Definition decode_to (A : Type) `{Shape A} (encoded_data : Bytes) : result A :=
  raw <- decode encoded_data ;;
  from_rlp raw.

End rlp.

(** ** The length of an encoding *)

Module rlp_size.

(** Number of bytes of the length prefix of a payload of [len] bytes. *)
Definition prefix_length (len : N) : N :=
  if len <? 56 then 1 else 1 + N.of_nat (List.length (to_be_bytes len)).

Definition sum_lengths (f : RLP -> N) (items : list RLP) : N :=
  fold_right (fun y acc => f y + acc) 0 items.

(** Number of bytes of the encoding of a value, computed without encoding
    it. The encoding exists when this is below 2^64. *)
Fixpoint encoded_length (x : RLP) : N :=
  match x with
  | RBytes raw =>
      if rlp.is_single_low raw then 1
      else
        let n := N.of_nat (List.length raw) in
        prefix_length n + n
  | RList items =>
      let n := sum_lengths encoded_length items in
      prefix_length n + n
  end.

End rlp_size.

(** The property proved by induction on the value: with fuel for the
    whole encoding, [rlp.decode_item] reads the value back and stops right
    after it. *)
Definition reads_back (x : RLP) : Prop :=
  forall (out : Bytes) (fuel : nat) (rest : Bytes),
    rlp.encode x = Ok out ->
    (List.length out <= fuel)%nat ->
    rlp.decode_item fuel (out ++ rest) = Ok (x, rest).

(** The encoding of a value exists, and has the computed length, when that
    length is below 2^64. *)
Definition has_encoding (x : RLP) : Prop :=
  rlp_size.encoded_length x < 2 ^ 64 ->
  exists out, rlp.encode x = Ok out /\ N.of_nat (List.length out) = rlp_size.encoded_length x.

(** ** Fixed-width integers and byte strings (base_types) *)

(** Modelled from the spec: [FixedUint] (base_types, missing from the
    sources), a non-negative integer that is at most [MAX_VALUE]; [U64]
    is the unsigned 64-bit and [U256] the unsigned 256-bit quantity. A
    value out of range is refused at construction, so none exists. *)
Record FixedUint (MAX_VALUE : N) : Type := mkFixedUint {
  uint_value : N;
  uint_in_range : (uint_value <=? MAX_VALUE) = true
}.

Arguments mkFixedUint MAX_VALUE uint_value uint_in_range : clear implicits.
Arguments uint_value {MAX_VALUE} _.

Definition U64 : Type := FixedUint (2 ^ 64 - 1).
Definition U256 : Type := FixedUint (2 ^ 256 - 1).

(** The constructor call [cls(value)]: [None] stands for the refusal of a
    value out of range. *)
Definition FixedUint_new (MAX_VALUE : N) (value : N)
  : option (FixedUint MAX_VALUE) :=
  match Sumbool.sumbool_of_bool (value <=? MAX_VALUE) with
  | left ok => Some (mkFixedUint MAX_VALUE value ok)
  | right _ => None
  end.

(** Modelled from the spec: [FixedBytes] (base_types, missing from the
    sources), a byte string of exactly [LENGTH] bytes; [Bytes0] is the
    empty no-recipient marker, [Bytes20] a 20-byte address and [Bytes32]
    a 32-byte hash. *)
Record FixedBytes (LENGTH : nat) : Type := mkFixedBytes {
  fixed_bytes : Bytes;
  fixed_length : Nat.eqb (List.length fixed_bytes) LENGTH = true
}.

Arguments mkFixedBytes LENGTH fixed_bytes fixed_length : clear implicits.
Arguments fixed_bytes {LENGTH} _.

Definition Bytes0 : Type := FixedBytes 0.
Definition Bytes20 : Type := FixedBytes 20.
Definition Bytes32 : Type := FixedBytes 32.

(** The constructor call [cls(b)]: [None] stands for the refusal of a
    byte string of another length. *)
Definition FixedBytes_new (LENGTH : nat) (b : Bytes)
  : option (FixedBytes LENGTH) :=
  match Sumbool.sumbool_of_bool (Nat.eqb (List.length b) LENGTH) with
  | left ok => Some (mkFixedBytes LENGTH b ok)
  | right _ => None
  end.

(** Modelled from the spec: [Address] and [VersionedHash] (fork_types,
    missing from the sources), a 20-byte address and a 32-byte hash. *)
Definition Address : Type := Bytes20.
Definition VersionedHash : Type := Bytes32.

(** [Tuple[T, ...]]: an immutable sequence of any length. *)
Definition Tuple (T : Type) : Type := list T.

(** ** How the codec sees each field type *)

Section Shapes.

Import rlp.

(** A refused construction, while decoding, is the invalid-envelope
    error. *)
Definition of_option {A : Type} (o : option A) : result A :=
  match o with
  | Some a => Ok a
  | None => Raise InvalidBlock
  end.

(** A byte string holding a canonical integer: no leading zero byte. *)
Definition uint_from_rlp (raw : RLP) : result N :=
  match raw with
  | RBytes b =>
      _ <- ensure (negb (leading_zero b)) InvalidBlock ;;
      Ok (from_be_bytes b)
  | RList _ => Raise InvalidBlock
  end.

#[export] Instance Shape_Uint : Shape Uint := {
  to_rlp n := RBytes (to_be_bytes n);
  from_rlp raw := uint_from_rlp raw
}.

#[export] Instance Shape_FixedUint (MAX_VALUE : N) : Shape (FixedUint MAX_VALUE) := {
  to_rlp n := RBytes (to_be_bytes (uint_value n));
  from_rlp raw :=
    value <- uint_from_rlp raw ;;
    of_option (FixedUint_new MAX_VALUE value)
}.

#[export] Instance Shape_Bytes : Shape Bytes := {
  to_rlp b := RBytes b;
  from_rlp raw :=
    match raw with
    | RBytes b => Ok b
    | RList _ => Raise InvalidBlock
    end
}.

#[export] Instance Shape_FixedBytes (LENGTH : nat) : Shape (FixedBytes LENGTH) := {
  to_rlp b := RBytes (fixed_bytes b);
  from_rlp raw :=
    match raw with
    | RBytes b => of_option (FixedBytes_new LENGTH b)
    | RList _ => Raise InvalidBlock
    end
}.

(** [Union[Bytes0, Address]]: the empty marker or a 20-byte address,
    told apart by the length of the byte string. *)
#[export] Instance Shape_Bytes0_or_Address : Shape (Bytes0 + Address) := {
  to_rlp u :=
    match u with
    | inl empty => RBytes (fixed_bytes empty)
    | inr address => RBytes (fixed_bytes address)
    end;
  from_rlp raw :=
    match raw with
    | RBytes b =>
        if Nat.eqb (List.length b) 0 then
          empty <- of_option (FixedBytes_new 0 b) ;; Ok (inl empty)
        else if Nat.eqb (List.length b) 20 then
          address <- of_option (FixedBytes_new 20 b) ;; Ok (inr address)
        else Raise InvalidBlock
    | RList _ => Raise InvalidBlock
    end
}.

(** Rebuilds every item of a list with [item], in order. *)
Fixpoint from_rlp_items {T : Type} (item : RLP -> result T) (items : list RLP)
  : result (list T) :=
  match items with
  | [] => Ok []
  | x :: xs =>
      y <- item x ;;
      ys <- from_rlp_items item xs ;;
      Ok (y :: ys)
  end.

#[export] Instance Shape_Tuple (T : Type) `{Shape T} : Shape (Tuple T) := {
  to_rlp items := RList (map to_rlp items);
  from_rlp raw :=
    match raw with
    | RList items => from_rlp_items from_rlp items
    | RBytes _ => Raise InvalidBlock
    end
}.

(** [Tuple[A, B]]: a sequence of exactly two items. *)
#[export] Instance Shape_pair (A B : Type) `{Shape A} `{Shape B} : Shape (A * B) := {
  to_rlp p := RList [to_rlp (fst p); to_rlp (snd p)];
  from_rlp raw :=
    match raw with
    | RList [x; y] =>
        a <- from_rlp x ;;
        b <- from_rlp y ;;
        Ok (a, b)
    | _ => Raise InvalidBlock
    end
}.

End Shapes.

(** ** Gas-cost constants *)

Definition TX_BASE_COST : N := 21000.
Definition STANDARD_TOKEN_COST : N := 4.
Definition TOTAL_COST_FLOOR_PER_TOKEN : N := 12.
Definition TX_CREATE_COST : N := 32000.
Definition TX_ACCESS_LIST_ADDRESS_COST : N := 2400.
Definition TX_ACCESS_LIST_STORAGE_KEY_COST : N := 1900.

(** ** The four transaction records *)

(** Atomic operation performed on the block chain. *)
Module LegacyTransaction.
Record t : Type := mk {
  nonce : U256;
  gas_price : Uint;
  gas : Uint;
  to : Bytes0 + Address;
  value : U256;
  data : Bytes;
  v : U256;
  r : U256;
  s : U256
}.
End LegacyTransaction.

(** The transaction type added in EIP-2930 to support access lists. *)
Module AccessListTransaction.
Record t : Type := mk {
  chain_id : U64;
  nonce : U256;
  gas_price : Uint;
  gas : Uint;
  to : Bytes0 + Address;
  value : U256;
  data : Bytes;
  access_list : Tuple (Address * Tuple Bytes32);
  y_parity : U256;
  r : U256;
  s : U256
}.
End AccessListTransaction.

(** The transaction type added in EIP-1559. *)
Module FeeMarketTransaction.
Record t : Type := mk {
  chain_id : U64;
  nonce : U256;
  max_priority_fee_per_gas : Uint;
  max_fee_per_gas : Uint;
  gas : Uint;
  to : Bytes0 + Address;
  value : U256;
  data : Bytes;
  access_list : Tuple (Address * Tuple Bytes32);
  y_parity : U256;
  r : U256;
  s : U256
}.
End FeeMarketTransaction.

(** The transaction type added in EIP-4844. *)
Module BlobTransaction.
Record t : Type := mk {
  chain_id : U64;
  nonce : U256;
  max_priority_fee_per_gas : Uint;
  max_fee_per_gas : Uint;
  gas : Uint;
  to : Address;
  value : U256;
  data : Bytes;
  access_list : Tuple (Address * Tuple Bytes32);
  max_fee_per_blob_gas : U256;
  blob_versioned_hashes : Tuple VersionedHash;
  y_parity : U256;
  r : U256;
  s : U256
}.
End BlobTransaction.

(** [Transaction = Union[LegacyTransaction, AccessListTransaction,
    FeeMarketTransaction, BlobTransaction]] *)
Inductive Transaction : Type :=
| Legacy (tx : LegacyTransaction.t)
| AccessList (tx : AccessListTransaction.t)
| FeeMarket (tx : FeeMarketTransaction.t)
| Blob (tx : BlobTransaction.t).

(** A dataclass is encoded as the list of its fields in declared order,
    and decoded from a list of exactly that many items. *)
Section RecordShapes.

Import rlp.

#[export] Instance Shape_LegacyTransaction : Shape LegacyTransaction.t := {
  to_rlp tx :=
    RList [to_rlp (LegacyTransaction.nonce tx);
           to_rlp (LegacyTransaction.gas_price tx);
           to_rlp (LegacyTransaction.gas tx);
           to_rlp (LegacyTransaction.to tx);
           to_rlp (LegacyTransaction.value tx);
           to_rlp (LegacyTransaction.data tx);
           to_rlp (LegacyTransaction.v tx);
           to_rlp (LegacyTransaction.r tx);
           to_rlp (LegacyTransaction.s tx)];
  from_rlp raw :=
    match raw with
    | RList [i1; i2; i3; i4; i5; i6; i7; i8; i9] =>
        nonce <- from_rlp i1 ;;
        gas_price <- from_rlp i2 ;;
        gas <- from_rlp i3 ;;
        to <- from_rlp i4 ;;
        value <- from_rlp i5 ;;
        data <- from_rlp i6 ;;
        v <- from_rlp i7 ;;
        r <- from_rlp i8 ;;
        s <- from_rlp i9 ;;
        Ok (LegacyTransaction.mk nonce gas_price gas to value data v r s)
    | _ => Raise InvalidBlock
    end
}.

#[export] Instance Shape_AccessListTransaction : Shape AccessListTransaction.t := {
  to_rlp tx :=
    RList [to_rlp (AccessListTransaction.chain_id tx);
           to_rlp (AccessListTransaction.nonce tx);
           to_rlp (AccessListTransaction.gas_price tx);
           to_rlp (AccessListTransaction.gas tx);
           to_rlp (AccessListTransaction.to tx);
           to_rlp (AccessListTransaction.value tx);
           to_rlp (AccessListTransaction.data tx);
           to_rlp (AccessListTransaction.access_list tx);
           to_rlp (AccessListTransaction.y_parity tx);
           to_rlp (AccessListTransaction.r tx);
           to_rlp (AccessListTransaction.s tx)];
  from_rlp raw :=
    match raw with
    | RList [i1; i2; i3; i4; i5; i6; i7; i8; i9; i10; i11] =>
        chain_id <- from_rlp i1 ;;
        nonce <- from_rlp i2 ;;
        gas_price <- from_rlp i3 ;;
        gas <- from_rlp i4 ;;
        to <- from_rlp i5 ;;
        value <- from_rlp i6 ;;
        data <- from_rlp i7 ;;
        access_list <- from_rlp i8 ;;
        y_parity <- from_rlp i9 ;;
        r <- from_rlp i10 ;;
        s <- from_rlp i11 ;;
        Ok (AccessListTransaction.mk chain_id nonce gas_price gas to value
              data access_list y_parity r s)
    | _ => Raise InvalidBlock
    end
}.

#[export] Instance Shape_FeeMarketTransaction : Shape FeeMarketTransaction.t := {
  to_rlp tx :=
    RList [to_rlp (FeeMarketTransaction.chain_id tx);
           to_rlp (FeeMarketTransaction.nonce tx);
           to_rlp (FeeMarketTransaction.max_priority_fee_per_gas tx);
           to_rlp (FeeMarketTransaction.max_fee_per_gas tx);
           to_rlp (FeeMarketTransaction.gas tx);
           to_rlp (FeeMarketTransaction.to tx);
           to_rlp (FeeMarketTransaction.value tx);
           to_rlp (FeeMarketTransaction.data tx);
           to_rlp (FeeMarketTransaction.access_list tx);
           to_rlp (FeeMarketTransaction.y_parity tx);
           to_rlp (FeeMarketTransaction.r tx);
           to_rlp (FeeMarketTransaction.s tx)];
  from_rlp raw :=
    match raw with
    | RList [i1; i2; i3; i4; i5; i6; i7; i8; i9; i10; i11; i12] =>
        chain_id <- from_rlp i1 ;;
        nonce <- from_rlp i2 ;;
        max_priority_fee_per_gas <- from_rlp i3 ;;
        max_fee_per_gas <- from_rlp i4 ;;
        gas <- from_rlp i5 ;;
        to <- from_rlp i6 ;;
        value <- from_rlp i7 ;;
        data <- from_rlp i8 ;;
        access_list <- from_rlp i9 ;;
        y_parity <- from_rlp i10 ;;
        r <- from_rlp i11 ;;
        s <- from_rlp i12 ;;
        Ok (FeeMarketTransaction.mk chain_id nonce max_priority_fee_per_gas
              max_fee_per_gas gas to value data access_list y_parity r s)
    | _ => Raise InvalidBlock
    end
}.

#[export] Instance Shape_BlobTransaction : Shape BlobTransaction.t := {
  to_rlp tx :=
    RList [to_rlp (BlobTransaction.chain_id tx);
           to_rlp (BlobTransaction.nonce tx);
           to_rlp (BlobTransaction.max_priority_fee_per_gas tx);
           to_rlp (BlobTransaction.max_fee_per_gas tx);
           to_rlp (BlobTransaction.gas tx);
           to_rlp (BlobTransaction.to tx);
           to_rlp (BlobTransaction.value tx);
           to_rlp (BlobTransaction.data tx);
           to_rlp (BlobTransaction.access_list tx);
           to_rlp (BlobTransaction.max_fee_per_blob_gas tx);
           to_rlp (BlobTransaction.blob_versioned_hashes tx);
           to_rlp (BlobTransaction.y_parity tx);
           to_rlp (BlobTransaction.r tx);
           to_rlp (BlobTransaction.s tx)];
  from_rlp raw :=
    match raw with
    | RList [i1; i2; i3; i4; i5; i6; i7; i8; i9; i10; i11; i12; i13; i14] =>
        chain_id <- from_rlp i1 ;;
        nonce <- from_rlp i2 ;;
        max_priority_fee_per_gas <- from_rlp i3 ;;
        max_fee_per_gas <- from_rlp i4 ;;
        gas <- from_rlp i5 ;;
        to <- from_rlp i6 ;;
        value <- from_rlp i7 ;;
        data <- from_rlp i8 ;;
        access_list <- from_rlp i9 ;;
        max_fee_per_blob_gas <- from_rlp i10 ;;
        blob_versioned_hashes <- from_rlp i11 ;;
        y_parity <- from_rlp i12 ;;
        r <- from_rlp i13 ;;
        s <- from_rlp i14 ;;
        Ok (BlobTransaction.mk chain_id nonce max_priority_fee_per_gas
              max_fee_per_gas gas to value data access_list
              max_fee_per_blob_gas blob_versioned_hashes y_parity r s)
    | _ => Raise InvalidBlock
    end
}.

End RecordShapes.

(** ** The values the two functions are called with *)

(** Neither function checks its argument against its annotation, so both
    are functions on any value: an instance of one of the four records, a
    byte string, or something else ([None], an [int], a [str]). *)
Inductive object : Type :=
| Tx (tx : Transaction)
| BytesObject (b : Bytes)
| NoneObject
| IntObject (n : Z)
| StrObject (s : string).

(** [isinstance(tx, Bytes)] *)
Definition isinstance_Bytes (tx : object) : bool :=
  match tx with
  | BytesObject _ => true
  | _ => false
  end.

(** True for the instances of the four records of the union. *)
Definition isinstance_Transaction (tx : object) : bool :=
  match tx with
  | Tx _ => true
  | _ => false
  end.

(** [type(tx)] as it is printed in a message. *)
Definition type_repr (tx : object) : string :=
  match tx with
  | Tx (Legacy _) => "<class 'ethereum.cancun.transactions.LegacyTransaction'>"
  | Tx (AccessList _) => "<class 'ethereum.cancun.transactions.AccessListTransaction'>"
  | Tx (FeeMarket _) => "<class 'ethereum.cancun.transactions.FeeMarketTransaction'>"
  | Tx (Blob _) => "<class 'ethereum.cancun.transactions.BlobTransaction'>"
  | BytesObject _ => "<class 'bytes'>"
  | NoneObject => "<class 'NoneType'>"
  | IntObject _ => "<class 'int'>"
  | StrObject _ => "<class 'str'>"
  end.

(** ** The envelope codec *)

(** Encode a transaction. Needed because non-legacy transactions aren't
    RLP. *)
Definition encode_transaction (tx : object) : result object :=
  match tx with
  | Tx (Legacy _) => Ok tx
  | Tx (AccessList t) =>
      payload <- rlp.encode (rlp.to_rlp t) ;;
      Ok (BytesObject (x01 :: payload))
  | Tx (FeeMarket t) =>
      payload <- rlp.encode (rlp.to_rlp t) ;;
      Ok (BytesObject (x02 :: payload))
  | Tx (Blob t) =>
      payload <- rlp.encode (rlp.to_rlp t) ;;
      Ok (BytesObject (x03 :: payload))
  | _ =>
      Raise (Exception_ ("Unable to encode transaction of type " ++ type_repr tx))
  end.

(** Decode a transaction. Needed because non-legacy transactions aren't
    RLP. [tx[0]] of an empty byte string raises [IndexError]; [rest] is
    [tx[1:]]. *)
Definition decode_transaction (tx : object) : result object :=
  match tx with
  | BytesObject b =>
      match b with
      | [] => Raise IndexError
      | first :: rest =>
          if Byte.to_N first =? 1 then
            t <- rlp.decode_to AccessListTransaction.t rest ;;
            Ok (Tx (AccessList t))
          else if Byte.to_N first =? 2 then
            t <- rlp.decode_to FeeMarketTransaction.t rest ;;
            Ok (Tx (FeeMarket t))
          else if Byte.to_N first =? 3 then
            t <- rlp.decode_to BlobTransaction.t rest ;;
            Ok (Tx (Blob t))
          else Raise InvalidBlock
      end
  | _ => Ok tx
  end.

(** The envelope of a transaction exists when the encoding of its fields
    is shorter than 2^64 bytes; a legacy transaction needs no encoding. *)
Definition fits_envelope (v : Transaction) : Prop :=
  match v with
  | Legacy _ => True
  | AccessList t => rlp_size.encoded_length (rlp.to_rlp t) < 2 ^ 64
  | FeeMarket t => rlp_size.encoded_length (rlp.to_rlp t) < 2 ^ 64
  | Blob t => rlp_size.encoded_length (rlp.to_rlp t) < 2 ^ 64
  end.

(** ** Sample values *)

Module Samples.

Definition u64 (n : N) (ok : (n <=? 2 ^ 64 - 1) = true) : U64 :=
  mkFixedUint _ n ok.

Definition u256 (n : N) (ok : (n <=? 2 ^ 256 - 1) = true) : U256 :=
  mkFixedUint _ n ok.

Definition zero_address : Address :=
  mkFixedBytes 20 (repeat x00 20) eq_refl.

Definition empty_marker : Bytes0 :=
  mkFixedBytes 0 [] eq_refl.

Definition key_one : Bytes32 :=
  mkFixedBytes 32 (repeat x00 31 ++ [x01]) eq_refl.

(** A contract creation: no recipient. *)
Definition legacy_creation : LegacyTransaction.t :=
  LegacyTransaction.mk (u256 7 eq_refl) 1000000000 53000 (inl empty_marker)
    (u256 0 eq_refl) [x60; x00] (u256 27 eq_refl) (u256 1 eq_refl)
    (u256 1 eq_refl).

(** Its structural list encoding: the list prefix 0xd1 (0xc0 + 17 bytes
    of payload) and the nine encoded fields. *)
Definition legacy_creation_encoding : Bytes :=
  [xd1; x07; x84; x3b; x9a; xca; x00; x82; xcf; x08; x80; x80; x82; x60;
   x00; x1b; x01; x01].

Definition access_list_creation : AccessListTransaction.t :=
  AccessListTransaction.mk (u64 1 eq_refl) (u256 3 eq_refl) 1000000000 60000
    (inl empty_marker) (u256 0 eq_refl) [x60; x00]
    [(zero_address, [key_one; key_one])]
    (u256 1 eq_refl) (u256 1 eq_refl) (u256 1 eq_refl).

Definition fee_market_creation : FeeMarketTransaction.t :=
  FeeMarketTransaction.mk (u64 1 eq_refl) (u256 0 eq_refl) 1 100 53000
    (inl empty_marker) (u256 0 eq_refl) [x60; x00] []
    (u256 0 eq_refl) (u256 1 eq_refl) (u256 1 eq_refl).

(** The fee-market transaction of the concrete scenario. *)
Definition fee_market_transfer : FeeMarketTransaction.t :=
  FeeMarketTransaction.mk (u64 1 eq_refl) (u256 0 eq_refl) 1 100 21000
    (inr zero_address) (u256 0 eq_refl) [] []
    (u256 0 eq_refl) (u256 1 eq_refl) (u256 1 eq_refl).

Definition blob_transfer : BlobTransaction.t :=
  BlobTransaction.mk (u64 1 eq_refl) (u256 5 eq_refl) 1 100 21000
    zero_address (u256 0 eq_refl) [] [(zero_address, [key_one])]
    (u256 3 eq_refl) [key_one] (u256 1 eq_refl) (u256 1 eq_refl)
    (u256 1 eq_refl).

(** The fields of [fee_market_transfer] as the codec sees them. *)
Definition fee_market_transfer_fields : list RLP :=
  [RBytes [x01]; RBytes []; RBytes [x01]; RBytes [x64];
   RBytes [x52; x08]; RBytes (repeat x00 20); RBytes []; RBytes [];
   RList []; RBytes []; RBytes [x01]; RBytes [x01]].

(** Its envelope: the type byte, the list prefix 0xe2 (0xc0 + 34 bytes of
    payload) and the twelve encoded fields. *)
Definition fee_market_transfer_envelope : Bytes :=
  [x02; xe2; x01; x80; x01; x64; x82; x52; x08; x94]
  ++ repeat x00 20 ++ [x80; x80; xc0; x80; x01; x01].

(** The payload of a blob transaction whose recipient item is the empty
    byte string, and of a fee-market transaction with the same fields
    (minus the two blob fields). *)
Definition blob_payload_without_recipient : list RLP :=
  [RBytes [x01]; RBytes []; RBytes [x01]; RBytes [x64];
   RBytes [x52; x08]; RBytes []; RBytes []; RBytes [];
   RList []; RBytes [x03]; RList []; RBytes []; RBytes [x01]; RBytes [x01]].

Definition blob_envelope_without_recipient : Bytes :=
  [x03; xd0; x01; x80; x01; x64; x82; x52; x08; x80; x80; x80; xc0; x03;
   xc0; x80; x01; x01].

(** The same payload without the two blob fields, as a fee-market
    envelope. *)
Definition fee_market_envelope_without_recipient : Bytes :=
  [x02; xce; x01; x80; x01; x64; x82; x52; x08; x80; x80; x80; xc0; x80;
   x01; x01].

End Samples.

(** ** What the proofs say of a shape *)

(** Decoding into a shape gives back the value that was encoded. *)
Class ShapeOk (A : Type) `{rlp.Shape A} : Prop :=
  from_to_rlp : forall a : A, rlp.from_rlp (rlp.to_rlp a) = Ok a.

(** ** What the later proofs say of a call and of a shape *)

(** The call [m] raises no exception but [e0]. *)
Definition raises_only {A : Type} (e0 : exception) (m : result A) : Prop :=
  forall e, m = Raise e -> e = e0.

(** A shape refuses a payload with [InvalidBlock] only, and accepts no
    payload but the one its value is encoded from. *)
Class ShapeStrict (A : Type) `{rlp.Shape A} : Prop := {
  from_rlp_raises :
    forall raw, raises_only InvalidBlock (rlp.from_rlp (A := A) raw);
  to_from_rlp :
    forall raw (a : A), rlp.from_rlp raw = Ok a -> rlp.to_rlp a = raw
}.

(** ** More sample values *)

Module MoreSamples.

Import Samples.

(** The record that [fee_market_envelope_without_recipient] decodes to. *)
Definition fee_market_creation_without_data : FeeMarketTransaction.t :=
  FeeMarketTransaction.mk (u64 1 eq_refl) (u256 0 eq_refl) 1 100 21000
    (inl empty_marker) (u256 0 eq_refl) [] []
    (u256 0 eq_refl) (u256 1 eq_refl) (u256 1 eq_refl).

(** [fee_market_transfer_envelope] under the type byte of an access-list
    transaction. *)
Definition retagged_envelope : Bytes :=
  x01 :: tl fee_market_transfer_envelope.

End MoreSamples.

(** ** A blob record at run time *)

(** The class body of [BlobTransaction] holds annotations only: it has no
    [__post_init__] and no validator, and the constructor that
    [@dataclass] generates stores each argument in its field without
    looking at the annotation of the field. At run time the [to] field
    therefore holds the value the constructor was given, of either class
    a recipient comes in: the empty marker [Bytes0] or an [Address]. The
    other fields are kept as declared. *)
Module BlobTransactionInstance.
Record t : Type := mk {
  chain_id : U64;
  nonce : U256;
  max_priority_fee_per_gas : Uint;
  max_fee_per_gas : Uint;
  gas : Uint;
  to : Bytes0 + Address;
  value : U256;
  data : Bytes;
  access_list : Tuple (Address * Tuple Bytes32);
  max_fee_per_blob_gas : U256;
  blob_versioned_hashes : Tuple VersionedHash;
  y_parity : U256;
  r : U256;
  s : U256
}.
End BlobTransactionInstance.

(** The generated constructor, [BlobTransaction(chain_id, ..., s)]: it
    builds the record from its arguments and refuses none. *)
Definition BlobTransaction_init
    (chain_id : U64) (nonce : U256)
    (max_priority_fee_per_gas max_fee_per_gas gas : Uint)
    (to : Bytes0 + Address) (value : U256) (data : Bytes)
    (access_list : Tuple (Address * Tuple Bytes32))
    (max_fee_per_blob_gas : U256)
    (blob_versioned_hashes : Tuple VersionedHash)
    (y_parity r s : U256) : result BlobTransactionInstance.t :=
  Ok (BlobTransactionInstance.mk chain_id nonce max_priority_fee_per_gas
        max_fee_per_gas gas to value data access_list max_fee_per_blob_gas
        blob_versioned_hashes y_parity r s).

(** The fields of a record as the codec sees them, in declared order; the
    codec goes by the value a field holds. *)
Definition blob_instance_fields (tx : BlobTransactionInstance.t) : list RLP :=
  [rlp.to_rlp (BlobTransactionInstance.chain_id tx);
   rlp.to_rlp (BlobTransactionInstance.nonce tx);
   rlp.to_rlp (BlobTransactionInstance.max_priority_fee_per_gas tx);
   rlp.to_rlp (BlobTransactionInstance.max_fee_per_gas tx);
   rlp.to_rlp (BlobTransactionInstance.gas tx);
   rlp.to_rlp (BlobTransactionInstance.to tx);
   rlp.to_rlp (BlobTransactionInstance.value tx);
   rlp.to_rlp (BlobTransactionInstance.data tx);
   rlp.to_rlp (BlobTransactionInstance.access_list tx);
   rlp.to_rlp (BlobTransactionInstance.max_fee_per_blob_gas tx);
   rlp.to_rlp (BlobTransactionInstance.blob_versioned_hashes tx);
   rlp.to_rlp (BlobTransactionInstance.y_parity tx);
   rlp.to_rlp (BlobTransactionInstance.r tx);
   rlp.to_rlp (BlobTransactionInstance.s tx)].

(** The [BlobTransaction] branch of [encode_transaction] on a record as
    it is at run time: [b"\x03" + rlp.encode(tx)]. *)
Definition encode_blob_instance (tx : BlobTransactionInstance.t)
  : result object :=
  payload <- rlp.encode (RList (blob_instance_fields tx)) ;;
  Ok (BytesObject (x03 :: payload)).

(** A record whose fields all have their declared type, as it is at run
    time. *)
Definition blob_instance_of (tx : BlobTransaction.t)
  : BlobTransactionInstance.t :=
  BlobTransactionInstance.mk
    (BlobTransaction.chain_id tx) (BlobTransaction.nonce tx)
    (BlobTransaction.max_priority_fee_per_gas tx)
    (BlobTransaction.max_fee_per_gas tx) (BlobTransaction.gas tx)
    (inr (BlobTransaction.to tx)) (BlobTransaction.value tx)
    (BlobTransaction.data tx) (BlobTransaction.access_list tx)
    (BlobTransaction.max_fee_per_blob_gas tx)
    (BlobTransaction.blob_versioned_hashes tx)
    (BlobTransaction.y_parity tx) (BlobTransaction.r tx)
    (BlobTransaction.s tx).

Module RuntimeSamples.

Import Samples.

(** A blob record built with the no-recipient marker. *)
Definition blob_creation : BlobTransactionInstance.t :=
  BlobTransactionInstance.mk (u64 1 eq_refl) (u256 0 eq_refl) 1 100 21000
    (inl empty_marker) (u256 0 eq_refl) [] [] (u256 3 eq_refl) []
    (u256 0 eq_refl) (u256 1 eq_refl) (u256 1 eq_refl).

End RuntimeSamples.
(** * Proofs *)

Lemma bind_Ok_inv {A B : Type} (m : result A) (k : A -> result B) (b : B) :
  bind m k = Ok b -> exists a, m = Ok a /\ k a = Ok b.
Proof.
  destruct m as [a | e]; simpl; intros H.
  - exists a. split; [reflexivity | exact H].
  - discriminate H.
Qed.

Lemma to_N_byte_of_N (n : N) : Byte.to_N (byte_of_N n) = n mod 256.
Proof.
  unfold byte_of_N.
  destruct (Byte.of_N (n mod 256)) as [b |] eqn:E.
  - apply Byte.to_of_N. exact E.
  - apply Byte.of_N_None_iff in E.
    assert (n mod 256 < 256) by (apply N.mod_lt; discriminate). lia.
Qed.

Lemma byte_of_N_to_N (b : byte) : byte_of_N (Byte.to_N b) = b.
Proof.
  unfold byte_of_N.
  pose proof (Byte.to_N_bounded b) as Hb.
  rewrite N.mod_small by lia.
  rewrite Byte.of_to_N. reflexivity.
Qed.

Lemma from_be_bytes_rev (b : Bytes) : from_be_bytes (rev b) = from_le_bytes b.
Proof.
  unfold from_be_bytes, from_le_bytes.
  rewrite <- fold_left_rev_right, rev_involutive. reflexivity.
Qed.

Lemma div256_lt_pow2 (n : N) (f : nat) :
  n < 2 ^ N.of_nat (S f) -> n / 256 < 2 ^ N.of_nat f.
Proof.
  intros H.
  rewrite Nat2N.inj_succ, N.pow_succ_r' in H.
  apply N.Div0.div_lt_upper_bound.
  assert (0 < 2 ^ N.of_nat f) by (apply N.neq_0_lt_0, N.pow_nonzero; discriminate).
  lia.
Qed.

Lemma from_le_to_le (fuel : nat) :
  forall n, n < 2 ^ N.of_nat fuel -> from_le_bytes (to_le_bytes_fuel fuel n) = n.
Proof.
  induction fuel as [| f IH]; intros n H.
  - simpl in *. lia.
  - cbn [to_le_bytes_fuel].
    destruct (N.eqb_spec n 0) as [-> | Hn]; [reflexivity |].
    cbn [from_le_bytes fold_right]. fold (from_le_bytes (to_le_bytes_fuel f (n / 256))).
    rewrite IH by (apply div256_lt_pow2; exact H).
    rewrite to_N_byte_of_N.
    symmetry. apply N.div_mod. discriminate.
Qed.

Lemma size_fuel (n : N) : n < 2 ^ N.of_nat (N.to_nat (N.size n)).
Proof. rewrite N2Nat.id. apply N.size_gt. Qed.

Theorem from_be_to_be (n : N) : from_be_bytes (to_be_bytes n) = n.
Proof.
  unfold to_be_bytes. rewrite from_be_bytes_rev.
  apply from_le_to_le, size_fuel.
Qed.

Lemma to_le_nil_iff (fuel : nat) (n : N) :
  n < 2 ^ N.of_nat fuel -> (to_le_bytes_fuel fuel n = [] <-> n = 0).
Proof.
  destruct fuel as [| f]; intros H.
  - simpl in H. split; [intros _; lia | reflexivity].
  - cbn [to_le_bytes_fuel].
    destruct (N.eqb_spec n 0) as [-> | Hn]; split; intros E;
      try reflexivity; try discriminate E; contradiction.
Qed.

Lemma leading_zero_app (a b : Bytes) :
  a <> [] -> leading_zero (a ++ b) = leading_zero a.
Proof. destruct a; [contradiction | reflexivity]. Qed.

Lemma to_le_last_nonzero (fuel : nat) :
  forall n, n < 2 ^ N.of_nat fuel ->
  leading_zero (rev (to_le_bytes_fuel fuel n)) = false.
Proof.
  induction fuel as [| f IH]; intros n H; [reflexivity |].
  cbn [to_le_bytes_fuel].
  destruct (N.eqb_spec n 0) as [-> | Hn]; [reflexivity |].
  pose proof (div256_lt_pow2 _ _ H) as Hd.
  cbn [rev].
  destruct (to_le_bytes_fuel f (n / 256)) as [| d ds] eqn:E.
  - apply (to_le_nil_iff _ _ Hd) in E.
    cbn. rewrite to_N_byte_of_N.
    apply N.eqb_neq.
    rewrite N.mod_small; [exact Hn |].
    apply N.div_small_iff in E; [exact E | discriminate].
  - rewrite leading_zero_app.
    + rewrite <- E. apply IH, Hd.
    + intros C. apply (f_equal (@List.length byte)) in C.
      rewrite length_rev in C. discriminate C.
Qed.

(** The big-endian form is canonical: it never starts with a zero byte. *)
Lemma to_be_bytes_canonical (n : N) : leading_zero (to_be_bytes n) = false.
Proof. apply to_le_last_nonzero, size_fuel. Qed.

Lemma to_le_length_le (fuel : nat) :
  forall n (k : nat), n < 256 ^ N.of_nat k ->
  (List.length (to_le_bytes_fuel fuel n) <= k)%nat.
Proof.
  induction fuel as [| f IH]; intros n k H; [simpl; lia |].
  cbn [to_le_bytes_fuel].
  destruct (N.eqb_spec n 0) as [-> | Hn]; [simpl; lia |].
  destruct k as [| k]; [simpl in H; lia |].
  cbn [List.length]. apply le_n_S, IH.
  rewrite Nat2N.inj_succ, N.pow_succ_r' in H.
  apply N.Div0.div_lt_upper_bound. exact H.
Qed.

Lemma to_be_bytes_length_le (n : N) (k : nat) :
  n < 256 ^ N.of_nat k -> (List.length (to_be_bytes n) <= k)%nat.
Proof.
  intros H. unfold to_be_bytes. rewrite length_rev.
  apply to_le_length_le, H.
Qed.

Lemma to_be_bytes_nonempty (n : N) : n <> 0 -> to_be_bytes n <> [].
Proof.
  intros Hn E. unfold to_be_bytes in E.
  apply (f_equal (@rev byte)) in E. rewrite rev_involutive in E. simpl in E.
  apply (to_le_nil_iff _ _ (size_fuel n)) in E. contradiction.
Qed.

(** The induction principle Rocq generates for [RLP] says nothing about the
    items of a list; this one does. *)
Lemma RLP_nested_ind (P : RLP -> Prop) :
  (forall raw, P (RBytes raw)) ->
  (forall items, Forall P items -> P (RList items)) ->
  forall x, P x.
Proof.
  intros Hb Hl.
  fix IH 1.
  intros [raw | items].
  - apply Hb.
  - apply Hl.
    induction items as [| y ys IHys]; constructor.
    + apply IH.
    + exact IHys.
Qed.

Lemma encode_RList (items : list RLP) :
  rlp.encode (RList items) =
  (joined <- rlp.join_encodings items ;; rlp.encode_sequence joined).
Proof.
  reflexivity.
Qed.

(** ** The codec decodes what it encodes *)

Section RlpRoundTrip.

Import rlp.

Lemma firstn_length_app {A : Type} (a b : list A) :
  firstn (List.length a) (a ++ b) = a.
Proof. induction a as [| x a IH]; simpl; [destruct b |]; congruence. Qed.

Lemma skipn_length_app {A : Type} (a b : list A) :
  skipn (List.length a) (a ++ b) = b.
Proof. induction a as [| x a IH]; simpl; congruence. Qed.

Lemma split_payload_app (a b : Bytes) :
  split_payload (N.of_nat (List.length a)) (a ++ b) = Ok (a, b).
Proof.
  unfold split_payload.
  rewrite length_app, Nat2N.id, firstn_length_app, skipn_length_app.
  replace (N.of_nat (List.length a) <=? N.of_nat (List.length a + List.length b))
    with true by (symmetry; apply N.leb_le; lia).
  reflexivity.
Qed.

Lemma pow_256_8 : 256 ^ N.of_nat 8 = 2 ^ 64.
Proof. reflexivity. Qed.

(** What [encode_length] writes, [decode_length] reads back. *)
Lemma decode_encode_length (offset len : N) (prefix : Bytes) :
  offset = 0x80 \/ offset = 0xC0 ->
  encode_length offset len = Ok prefix ->
  exists h t,
    prefix = h :: t /\
    offset <= Byte.to_N h < offset + 64 /\
    forall rest, decode_length offset (Byte.to_N h) (t ++ rest) = Ok (len, rest).
Proof.
  intros Hoff. unfold encode_length.
  destruct (N.ltb_spec len 56) as [Hshort | Hlong].
  - intros [= <-].
    exists (byte_of_N (offset + len)), [].
    assert (Hh : Byte.to_N (byte_of_N (offset + len)) = offset + len).
    { rewrite to_N_byte_of_N. apply N.mod_small. lia. }
    rewrite Hh. repeat split; try lia.
    intros rest. unfold decode_length.
    replace (offset + len - offset) with len by lia.
    replace (len <? 56) with true by (symmetry; apply N.ltb_lt; lia).
    reflexivity.
  - destruct (N.ltb_spec len (2 ^ 64)) as [Hfit | Hbig]; [| discriminate].
    intros [= <-].
    set (lb := to_be_bytes len).
    assert (Hle : (List.length lb <= 8)%nat).
    { apply to_be_bytes_length_le. rewrite pow_256_8. exact Hfit. }
    assert (Hge : (1 <= List.length lb)%nat).
    { assert (lb <> []) by (apply to_be_bytes_nonempty; lia).
      destruct lb; [contradiction | simpl; lia]. }
    exists (byte_of_N (offset + 55 + N.of_nat (List.length lb))), lb.
    assert (Hh : Byte.to_N (byte_of_N (offset + 55 + N.of_nat (List.length lb)))
                 = offset + 55 + N.of_nat (List.length lb)).
    { rewrite to_N_byte_of_N. apply N.mod_small. lia. }
    rewrite Hh. repeat split; try lia.
    intros rest. unfold decode_length.
    replace (offset + 55 + N.of_nat (List.length lb) - offset)
      with (55 + N.of_nat (List.length lb)) by lia.
    replace (55 + N.of_nat (List.length lb) <? 56)
      with false by (symmetry; apply N.ltb_ge; lia).
    replace (55 + N.of_nat (List.length lb) - 55)
      with (N.of_nat (List.length lb)) by lia.
    rewrite Nat2N.id, firstn_length_app, skipn_length_app, length_app.
    replace (N.of_nat (List.length lb) <=? N.of_nat (List.length lb + List.length rest))
      with true by (symmetry; apply N.leb_le; lia).
    rewrite (to_be_bytes_canonical len : leading_zero lb = false).
    rewrite (from_be_to_be len : from_be_bytes lb = len).
    replace (56 <=? len) with true by (symmetry; apply N.leb_le; lia).
    reflexivity.
Qed.

Lemma encode_bytes_nonempty (raw out : Bytes) :
  encode_bytes raw = Ok out -> out <> [].
Proof.
  unfold encode_bytes.
  destruct (is_single_low raw) eqn:E.
  - intros [= <-]. destruct raw; [discriminate E | discriminate].
  - intros H. apply bind_Ok_inv in H as (prefix & Hp & [= <-]).
    apply (decode_encode_length _ _ _ (or_introl eq_refl)) in Hp
      as (h & t & -> & _). discriminate.
Qed.

Lemma encode_nonempty (x : RLP) (out : Bytes) :
  encode x = Ok out -> out <> [].
Proof.
  destruct x as [raw | items].
  - apply encode_bytes_nonempty.
  - rewrite encode_RList. intros H.
    apply bind_Ok_inv in H as (joined & _ & H).
    unfold encode_sequence in H.
    apply bind_Ok_inv in H as (prefix & Hp & [= <-]).
    apply (decode_encode_length _ _ _ (or_intror eq_refl)) in Hp
      as (h & t & -> & _). discriminate.
Qed.

Lemma reads_back_joined (f : nat) (items : list RLP) :
  Forall reads_back items ->
  forall (joined : Bytes) (turns : nat),
    join_encodings items = Ok joined ->
    (List.length joined <= f)%nat ->
    (List.length joined <= turns)%nat ->
    decode_joined_encodings (decode_item f) turns joined = Ok items.
Proof.
  induction 1 as [| y ys Hy _ IH]; intros joined turns Hj Hf Ht.
  - injection Hj as <-. destruct turns; reflexivity.
  - cbn [join_encodings] in Hj.
    apply bind_Ok_inv in Hj as (e & He & Hj).
    apply bind_Ok_inv in Hj as (es & Hes & [= <-]).
    pose proof (encode_nonempty _ _ He) as Hne.
    rewrite length_app in Hf, Ht.
    destruct e as [| e0 e']; [contradiction |].
    destruct turns as [| t]; [simpl in Ht; lia |].
    cbn [decode_joined_encodings app].
    change (e0 :: e' ++ es) with ((e0 :: e') ++ es).
    rewrite (Hy _ f es He) by lia.
    cbn [bind].
    rewrite (IH es t Hes) by (simpl in *; lia).
    reflexivity.
Qed.

Lemma reads_back_all (x : RLP) : reads_back x.
Proof.
  induction x as [raw | items IH] using RLP_nested_ind;
    intros out fuel rest Henc Hfuel.
  - cbn [encode] in Henc. unfold encode_bytes in Henc.
    destruct (is_single_low raw) eqn:Elow.
    + injection Henc as <-.
      destruct raw as [| b [| ? ?]]; try discriminate Elow.
      destruct fuel as [| f]; [simpl in Hfuel; lia |].
      cbn [is_single_low] in Elow.
      cbn [decode_item app]. rewrite Elow. reflexivity.
    + apply bind_Ok_inv in Henc as (prefix & Hp & [= <-]).
      apply (decode_encode_length _ _ _ (or_introl eq_refl)) in Hp
        as (h & t & -> & Hh & Hdec).
      destruct fuel as [| f]; [simpl in Hfuel; lia |].
      rewrite <- app_assoc. cbn [decode_item app].
      replace (Byte.to_N h <? 128) with false by (symmetry; apply N.ltb_ge; lia).
      replace (Byte.to_N h <? 192) with true by (symmetry; apply N.ltb_lt; lia).
      rewrite Hdec. cbn [bind].
      rewrite split_payload_app. cbn [bind].
      rewrite Elow. reflexivity.
  - rewrite encode_RList in Henc.
    apply bind_Ok_inv in Henc as (joined & Hj & Henc).
    unfold encode_sequence in Henc.
    apply bind_Ok_inv in Henc as (prefix & Hp & [= <-]).
    apply (decode_encode_length _ _ _ (or_intror eq_refl)) in Hp
      as (h & t & -> & Hh & Hdec).
    destruct fuel as [| f]; [simpl in Hfuel; lia |].
    rewrite <- app_assoc. cbn [decode_item app].
    replace (Byte.to_N h <? 128) with false by (symmetry; apply N.ltb_ge; lia).
    replace (Byte.to_N h <? 192) with false by (symmetry; apply N.ltb_ge; lia).
    rewrite Hdec. cbn [bind].
    rewrite split_payload_app. cbn [bind].
    rewrite (reads_back_joined f items IH joined); trivial.
    simpl in Hfuel. rewrite !length_app in Hfuel. lia.
Qed.

(** Decoding an encoding gives the value back. *)
Theorem decode_encode (x : RLP) (out : Bytes) :
  encode x = Ok out -> decode out = Ok x.
Proof.
  intros H. unfold decode.
  rewrite <- (app_nil_r out) at 2.
  rewrite (reads_back_all x out (List.length out) [] H (le_n _)).
  reflexivity.
Qed.

End RlpRoundTrip.

(** ** Every value of realistic size has an encoding *)

Section RlpTotal.

Import rlp rlp_size.

Lemma encode_length_total (offset len : N) :
  len < 2 ^ 64 ->
  exists prefix,
    encode_length offset len = Ok prefix /\
    N.of_nat (List.length prefix) = prefix_length len.
Proof.
  intros H. unfold encode_length, prefix_length.
  destruct (len <? 56).
  - eexists. split; reflexivity.
  - replace (len <? 2 ^ 64) with true by (symmetry; apply N.ltb_lt; exact H).
    eexists. split; [reflexivity |].
    cbn [List.length]. lia.
Qed.

Lemma prefix_length_pos (len : N) : 1 <= prefix_length len.
Proof. unfold prefix_length. destruct (len <? 56); lia. Qed.

Lemma join_encodings_total (items : list RLP) :
  Forall has_encoding items ->
  sum_lengths encoded_length items < 2 ^ 64 ->
  exists joined,
    join_encodings items = Ok joined /\
    N.of_nat (List.length joined) = sum_lengths encoded_length items.
Proof.
  induction 1 as [| y ys Hy _ IH]; intros Hsum.
  - exists []. split; reflexivity.
  - cbn [sum_lengths fold_right] in Hsum |- *.
    fold (sum_lengths encoded_length ys) in Hsum |- *.
    destruct Hy as (e & He & Hle); [lia |].
    destruct IH as (es & Hes & Hles); [lia |].
    exists (e ++ es). cbn [join_encodings].
    rewrite He, Hes. cbn [bind].
    split; [reflexivity |].
    rewrite length_app. lia.
Qed.

Theorem encode_total (x : RLP) : has_encoding x.
Proof.
  induction x as [raw | items IH] using RLP_nested_ind; intros Hfit.
  - cbn [encode encoded_length] in *. unfold encode_bytes.
    destruct (is_single_low raw) eqn:Elow.
    + exists raw. split; [reflexivity |].
      destruct raw as [| b [| ? ?]]; try discriminate Elow. reflexivity.
    + pose proof (prefix_length_pos (N.of_nat (List.length raw))) as Hpos.
      destruct (encode_length_total 0x80 (N.of_nat (List.length raw)))
        as (prefix & Hp & Hlp); [lia |].
      exists (prefix ++ raw). rewrite Hp. cbn [bind].
      split; [reflexivity |].
      rewrite length_app. lia.
  - rewrite encode_RList. cbn [encoded_length] in *.
    pose proof (prefix_length_pos (sum_lengths encoded_length items)) as Hpos.
    destruct (join_encodings_total items IH) as (joined & Hj & Hlj); [lia |].
    rewrite Hj. cbn [bind]. unfold encode_sequence.
    destruct (encode_length_total 0xC0 (N.of_nat (List.length joined)))
      as (prefix & Hp & Hlp); [lia |].
    exists (prefix ++ joined). rewrite Hp. cbn [bind].
    split; [reflexivity |].
    rewrite length_app, <- Hlj. lia.
Qed.

End RlpTotal.

(** ** Values of the fixed-width types are equal when their contents are *)

Lemma FixedUint_ext (MAX_VALUE : N) (a b : FixedUint MAX_VALUE) :
  uint_value a = uint_value b -> a = b.
Proof.
  destruct a as [x Hx], b as [y Hy]. simpl. intros ->.
  f_equal. apply UIP_dec, Bool.bool_dec.
Qed.

Lemma FixedBytes_ext (LENGTH : nat) (a b : FixedBytes LENGTH) :
  fixed_bytes a = fixed_bytes b -> a = b.
Proof.
  destruct a as [x Hx], b as [y Hy]. simpl. intros ->.
  f_equal. apply UIP_dec, Bool.bool_dec.
Qed.

Lemma FixedUint_new_value (MAX_VALUE : N) (a : FixedUint MAX_VALUE) :
  FixedUint_new MAX_VALUE (uint_value a) = Some a.
Proof.
  unfold FixedUint_new.
  destruct (Sumbool.sumbool_of_bool (uint_value a <=? MAX_VALUE)) as [ok | no].
  - f_equal. apply FixedUint_ext. reflexivity.
  - rewrite (uint_in_range _ a) in no. discriminate no.
Qed.

Lemma FixedBytes_new_bytes (LENGTH : nat) (a : FixedBytes LENGTH) :
  FixedBytes_new LENGTH (fixed_bytes a) = Some a.
Proof.
  unfold FixedBytes_new.
  destruct (Sumbool.sumbool_of_bool
              (Nat.eqb (List.length (fixed_bytes a)) LENGTH)) as [ok | no].
  - f_equal. apply FixedBytes_ext. reflexivity.
  - rewrite (fixed_length _ a) in no. discriminate no.
Qed.

Lemma FixedBytes_length (LENGTH : nat) (a : FixedBytes LENGTH) :
  List.length (fixed_bytes a) = LENGTH.
Proof. apply Nat.eqb_eq, fixed_length. Qed.

(** ** Each shape is decoded back from how the codec sees it *)

Section ShapeLaws.

Import rlp.

Lemma uint_from_rlp_to_be (n : N) :
  uint_from_rlp (RBytes (to_be_bytes n)) = Ok n.
Proof.
  unfold uint_from_rlp.
  rewrite to_be_bytes_canonical, from_be_to_be. reflexivity.
Qed.

#[export] Instance ShapeOk_Uint : ShapeOk Uint.
Proof. intros n. apply uint_from_rlp_to_be. Qed.

#[export] Instance ShapeOk_FixedUint (MAX_VALUE : N) : ShapeOk (FixedUint MAX_VALUE).
Proof.
  intros a. cbn [from_rlp to_rlp Shape_FixedUint].
  rewrite uint_from_rlp_to_be. cbn [bind].
  rewrite FixedUint_new_value. reflexivity.
Qed.

#[export] Instance ShapeOk_Bytes : ShapeOk Bytes.
Proof. intros b. reflexivity. Qed.

#[export] Instance ShapeOk_FixedBytes (LENGTH : nat) : ShapeOk (FixedBytes LENGTH).
Proof.
  intros a. cbn [from_rlp to_rlp Shape_FixedBytes].
  rewrite FixedBytes_new_bytes. reflexivity.
Qed.

#[export] Instance ShapeOk_Bytes0_or_Address : ShapeOk (Bytes0 + Address).
Proof.
  intros [empty | address]; cbn [from_rlp to_rlp Shape_Bytes0_or_Address].
  - rewrite (FixedBytes_length 0 empty). cbn [Nat.eqb].
    rewrite FixedBytes_new_bytes. reflexivity.
  - rewrite (FixedBytes_length 20 address). cbn [Nat.eqb].
    rewrite FixedBytes_new_bytes. reflexivity.
Qed.

Lemma from_rlp_items_map (T : Type) `{ShapeOk T} (items : list T) :
  from_rlp_items from_rlp (map to_rlp items) = Ok items.
Proof.
  induction items as [| x xs IH]; [reflexivity |].
  cbn [map from_rlp_items].
  rewrite from_to_rlp. cbn [bind].
  rewrite IH. reflexivity.
Qed.

#[export] Instance ShapeOk_Tuple (T : Type) `{ShapeOk T} : ShapeOk (Tuple T).
Proof. intros items. apply from_rlp_items_map. assumption. Qed.

#[export] Instance ShapeOk_pair (A B : Type) `{ShapeOk A} `{ShapeOk B} : ShapeOk (A * B).
Proof.
  intros [a b]. cbn [from_rlp to_rlp Shape_pair fst snd].
  rewrite !from_to_rlp. reflexivity.
Qed.

(** Rewrites with the law of the shape of each field in turn. *)
Ltac fields_back :=
  repeat (rewrite from_to_rlp; cbn [bind]); reflexivity.

#[export] Instance ShapeOk_LegacyTransaction : ShapeOk LegacyTransaction.t.
Proof. intros []. cbn [from_rlp to_rlp Shape_LegacyTransaction]. fields_back. Qed.

#[export] Instance ShapeOk_AccessListTransaction : ShapeOk AccessListTransaction.t.
Proof. intros []. cbn [from_rlp to_rlp Shape_AccessListTransaction]. fields_back. Qed.

#[export] Instance ShapeOk_FeeMarketTransaction : ShapeOk FeeMarketTransaction.t.
Proof. intros []. cbn [from_rlp to_rlp Shape_FeeMarketTransaction]. fields_back. Qed.

#[export] Instance ShapeOk_BlobTransaction : ShapeOk BlobTransaction.t.
Proof. intros []. cbn [from_rlp to_rlp Shape_BlobTransaction]. fields_back. Qed.

(** [decode_to] undoes [encode] at every shape that obeys the law. *)
Theorem decode_to_encode (A : Type) `{ShapeOk A} (a : A) (out : Bytes) :
  encode (to_rlp a) = Ok out -> decode_to A out = Ok a.
Proof.
  intros Henc. unfold decode_to.
  rewrite (decode_encode _ _ Henc). cbn [bind].
  apply from_to_rlp.
Qed.

End ShapeLaws.

(** * The envelope codec *)

Section Envelope.

Import rlp.

(** The envelope of a typed transaction: the payload exists, the type
    byte goes in front of it, and decoding the result gives the record
    back. Shared by the statements below. *)
Lemma payload_exists (A : Type) `{ShapeOk A} (t : A) :
  rlp_size.encoded_length (to_rlp t) < 2 ^ 64 ->
  exists payload,
    encode (to_rlp t) = Ok payload /\ decode_to A payload = Ok t.
Proof.
  intros Hfit.
  destruct (encode_total _ Hfit) as (payload & Henc & _).
  exists payload. split; [exact Henc |].
  apply decode_to_encode; assumption.
Qed.

End Envelope.

(** C1. Round trip: for every transaction [v] of any of the four variants
    (its fields are in range by their types, and its envelope fits),
    [encode_transaction] returns an envelope, and [decode_transaction] of
    that envelope is [v] again, equal in all fields. *)
Theorem round_trip (v : Transaction) :
  fits_envelope v ->
  exists envelope,
    encode_transaction (Tx v) = Ok envelope /\
    decode_transaction envelope = Ok (Tx v).
Proof.
  destruct v as [t | t | t | t]; intros Hfit.
  - exists (Tx (Legacy t)). split; reflexivity.
  - destruct (payload_exists _ t Hfit) as (payload & Henc & Hdec).
    exists (BytesObject (x01 :: payload)). split.
    + cbn [encode_transaction]. rewrite Henc. reflexivity.
    + cbn. rewrite Hdec. reflexivity.
  - destruct (payload_exists _ t Hfit) as (payload & Henc & Hdec).
    exists (BytesObject (x02 :: payload)). split.
    + cbn [encode_transaction]. rewrite Henc. reflexivity.
    + cbn. rewrite Hdec. reflexivity.
  - destruct (payload_exists _ t Hfit) as (payload & Henc & Hdec).
    exists (BytesObject (x03 :: payload)). split.
    + cbn [encode_transaction]. rewrite Henc. reflexivity.
    + cbn. rewrite Hdec. reflexivity.
Qed.

Lemma round_trip_witness :
  fits_envelope (Blob Samples.blob_transfer) /\
  exists envelope,
    encode_transaction (Tx (Blob Samples.blob_transfer)) = Ok envelope /\
    decode_transaction envelope = Ok (Tx (Blob Samples.blob_transfer)).
Proof.
  split.
  - vm_compute. reflexivity.
  - apply (round_trip (Blob Samples.blob_transfer)). vm_compute. reflexivity.
Defined.

(** C2 as stated fails: the legacy sample has a structural list encoding
    of its nine fields, and [encode_transaction] does not return that
    byte string, nor any other. *)
Lemma legacy_not_returned_as_bytes :
  rlp.encode (rlp.to_rlp Samples.legacy_creation)
  = Ok Samples.legacy_creation_encoding /\
  encode_transaction (Tx (Legacy Samples.legacy_creation))
  <> Ok (BytesObject Samples.legacy_creation_encoding) /\
  ~ (exists out,
       encode_transaction (Tx (Legacy Samples.legacy_creation))
       = Ok (BytesObject out)).
Proof.
  split; [vm_compute; reflexivity |].
  split; [discriminate |].
  intros (out & H). discriminate H.
Qed.

(** C2, amended. For every legacy transaction [tx], [encode_transaction]
    returns the record [tx] itself, unchanged: it is not a byte string,
    nothing is encoded and no discriminant byte is put in front. *)
Theorem legacy_returned_unchanged (tx : LegacyTransaction.t) :
  encode_transaction (Tx (Legacy tx)) = Ok (Tx (Legacy tx)) /\
  isinstance_Bytes (Tx (Legacy tx)) = false.
Proof. split; reflexivity. Qed.

(** C3. For every access-list, fee-market and blob transaction (whose
    envelope fits), [encode_transaction] returns a byte string: the byte
    0x01, 0x02 or 0x03, followed by the structural encoding of the list
    of the fields of the record in declared order. *)
Theorem typed_envelope_layout :
  (forall t : AccessListTransaction.t,
     fits_envelope (AccessList t) ->
     exists payload,
       rlp.encode
         (RList [rlp.to_rlp (AccessListTransaction.chain_id t);
                 rlp.to_rlp (AccessListTransaction.nonce t);
                 rlp.to_rlp (AccessListTransaction.gas_price t);
                 rlp.to_rlp (AccessListTransaction.gas t);
                 rlp.to_rlp (AccessListTransaction.to t);
                 rlp.to_rlp (AccessListTransaction.value t);
                 rlp.to_rlp (AccessListTransaction.data t);
                 rlp.to_rlp (AccessListTransaction.access_list t);
                 rlp.to_rlp (AccessListTransaction.y_parity t);
                 rlp.to_rlp (AccessListTransaction.r t);
                 rlp.to_rlp (AccessListTransaction.s t)]) = Ok payload /\
       encode_transaction (Tx (AccessList t))
       = Ok (BytesObject (x01 :: payload))) /\
  (forall t : FeeMarketTransaction.t,
     fits_envelope (FeeMarket t) ->
     exists payload,
       rlp.encode
         (RList [rlp.to_rlp (FeeMarketTransaction.chain_id t);
                 rlp.to_rlp (FeeMarketTransaction.nonce t);
                 rlp.to_rlp (FeeMarketTransaction.max_priority_fee_per_gas t);
                 rlp.to_rlp (FeeMarketTransaction.max_fee_per_gas t);
                 rlp.to_rlp (FeeMarketTransaction.gas t);
                 rlp.to_rlp (FeeMarketTransaction.to t);
                 rlp.to_rlp (FeeMarketTransaction.value t);
                 rlp.to_rlp (FeeMarketTransaction.data t);
                 rlp.to_rlp (FeeMarketTransaction.access_list t);
                 rlp.to_rlp (FeeMarketTransaction.y_parity t);
                 rlp.to_rlp (FeeMarketTransaction.r t);
                 rlp.to_rlp (FeeMarketTransaction.s t)]) = Ok payload /\
       encode_transaction (Tx (FeeMarket t))
       = Ok (BytesObject (x02 :: payload))) /\
  (forall t : BlobTransaction.t,
     fits_envelope (Blob t) ->
     exists payload,
       rlp.encode
         (RList [rlp.to_rlp (BlobTransaction.chain_id t);
                 rlp.to_rlp (BlobTransaction.nonce t);
                 rlp.to_rlp (BlobTransaction.max_priority_fee_per_gas t);
                 rlp.to_rlp (BlobTransaction.max_fee_per_gas t);
                 rlp.to_rlp (BlobTransaction.gas t);
                 rlp.to_rlp (BlobTransaction.to t);
                 rlp.to_rlp (BlobTransaction.value t);
                 rlp.to_rlp (BlobTransaction.data t);
                 rlp.to_rlp (BlobTransaction.access_list t);
                 rlp.to_rlp (BlobTransaction.max_fee_per_blob_gas t);
                 rlp.to_rlp (BlobTransaction.blob_versioned_hashes t);
                 rlp.to_rlp (BlobTransaction.y_parity t);
                 rlp.to_rlp (BlobTransaction.r t);
                 rlp.to_rlp (BlobTransaction.s t)]) = Ok payload /\
       encode_transaction (Tx (Blob t))
       = Ok (BytesObject (x03 :: payload))).
Proof.
  repeat split; intros t Hfit;
    destruct (encode_total _ Hfit) as (payload & Henc & _);
    exists payload; (split; [exact Henc |]);
    cbn [encode_transaction]; rewrite Henc; reflexivity.
Qed.

Lemma typed_envelope_layout_witness :
  (fits_envelope (AccessList Samples.access_list_creation) /\
   exists payload,
     encode_transaction (Tx (AccessList Samples.access_list_creation))
     = Ok (BytesObject (x01 :: payload))) /\
  (fits_envelope (FeeMarket Samples.fee_market_transfer) /\
   exists payload,
     encode_transaction (Tx (FeeMarket Samples.fee_market_transfer))
     = Ok (BytesObject (x02 :: payload))) /\
  (fits_envelope (Blob Samples.blob_transfer) /\
   exists payload,
     encode_transaction (Tx (Blob Samples.blob_transfer))
     = Ok (BytesObject (x03 :: payload))).
Proof.
  destruct typed_envelope_layout as (Hal & Hfm & Hblob).
  repeat split; try (vm_compute; reflexivity).
  - destruct (Hal Samples.access_list_creation) as (p & _ & H);
      [vm_compute; reflexivity | exists p; exact H].
  - destruct (Hfm Samples.fee_market_transfer) as (p & _ & H);
      [vm_compute; reflexivity | exists p; exact H].
  - destruct (Hblob Samples.blob_transfer) as (p & _ & H);
      [vm_compute; reflexivity | exists p; exact H].
Defined.

(** C4. A byte string whose first byte is 0x00, or 0x04 or more, is
    refused by [decode_transaction] with [InvalidBlock], whatever
    follows the first byte. *)
Theorem unknown_type_rejected (first : byte) (rest : Bytes) :
  Byte.to_N first = 0 \/ 4 <= Byte.to_N first ->
  decode_transaction (BytesObject (first :: rest)) = Raise InvalidBlock.
Proof.
  intros H. cbn [decode_transaction].
  replace (Byte.to_N first =? 1) with false by (symmetry; apply N.eqb_neq; lia).
  replace (Byte.to_N first =? 2) with false by (symmetry; apply N.eqb_neq; lia).
  replace (Byte.to_N first =? 3) with false by (symmetry; apply N.eqb_neq; lia).
  reflexivity.
Qed.

Lemma unknown_type_rejected_witness :
  (Byte.to_N x04 = 0 \/ 4 <= Byte.to_N x04) /\
  decode_transaction (BytesObject (x04 :: tl Samples.fee_market_transfer_envelope))
  = Raise InvalidBlock.
Proof.
  split.
  - right. vm_compute. discriminate.
  - apply unknown_type_rejected. right. vm_compute. discriminate.
Defined.

(** C6. A legacy record given to [decode_transaction] in place of a byte
    string comes back as it is; nothing is encoded or decoded. *)
Theorem legacy_decode_identity (tx : LegacyTransaction.t) :
  decode_transaction (Tx (Legacy tx)) = Ok (Tx (Legacy tx)).
Proof. reflexivity. Qed.

(** C7. [encode_transaction] of a value that is none of the four records
    raises a bare [Exception], which is not the [InvalidBlock] that
    [decode_transaction] raises for an unknown type byte. *)
Theorem encode_failure_is_distinct (tx : object) (first : byte) (rest : Bytes) :
  isinstance_Transaction tx = false ->
  Byte.to_N first <> 1 /\ Byte.to_N first <> 2 /\ Byte.to_N first <> 3 ->
  encode_transaction tx
  = Raise (Exception_ ("Unable to encode transaction of type " ++ type_repr tx)) /\
  decode_transaction (BytesObject (first :: rest)) = Raise InvalidBlock /\
  encode_transaction tx <> decode_transaction (BytesObject (first :: rest)).
Proof.
  intros Htx (H1 & H2 & H3).
  assert (Henc : encode_transaction tx
                 = Raise (Exception_ ("Unable to encode transaction of type "
                                        ++ type_repr tx))).
  { destruct tx; try discriminate Htx; reflexivity. }
  assert (Hdec : decode_transaction (BytesObject (first :: rest))
                 = Raise InvalidBlock).
  { cbn [decode_transaction].
    apply N.eqb_neq in H1, H2, H3. rewrite H1, H2, H3. reflexivity. }
  repeat split; [exact Henc | exact Hdec |].
  rewrite Henc, Hdec. discriminate.
Qed.

Lemma encode_failure_is_distinct_witness :
  isinstance_Transaction (BytesObject [x01]) = false /\
  (Byte.to_N x00 <> 1 /\ Byte.to_N x00 <> 2 /\ Byte.to_N x00 <> 3) /\
  encode_transaction (BytesObject [x01])
  = Raise (Exception_ "Unable to encode transaction of type <class 'bytes'>") /\
  decode_transaction (BytesObject [x00; xc0]) = Raise InvalidBlock /\
  encode_transaction (BytesObject [x01])
  <> decode_transaction (BytesObject [x00; xc0]).
Proof.
  split; [reflexivity |].
  split; [repeat split; discriminate |].
  apply (encode_failure_is_distinct (BytesObject [x01]) x00 [xc0]).
  - reflexivity.
  - repeat split; discriminate.
Defined.

(** C8 as stated fails on the number of fields: the payload of the
    envelope of the sample is not the encoding of a list of eleven
    items. *)
Lemma fee_market_transfer_not_eleven_fields :
  ~ (exists (fields : list RLP) (payload : Bytes),
       List.length fields = 11%nat /\
       rlp.encode (RList fields) = Ok payload /\
       encode_transaction (Tx (FeeMarket Samples.fee_market_transfer))
       = Ok (BytesObject (x02 :: payload))).
Proof.
  intros (fields & payload & Hlen & Henc & Hout).
  vm_compute in Hout. injection Hout as Hp. subst payload.
  apply decode_encode in Henc. vm_compute in Henc.
  injection Henc as Hf. subst fields. discriminate Hlen.
Qed.

(** C8, amended. The fee-market transaction with chain_id=1, nonce=0,
    max_priority_fee_per_gas=1, max_fee_per_gas=100, gas=21000, the
    20-zero-byte recipient, value=0, empty data, empty access list,
    y_parity=0, r=1, s=1 is encoded as the byte 0x02 followed by the
    structural encoding of the list of those twelve fields in that order,
    and decoding that byte string gives the same record. *)
Theorem fee_market_transfer_scenario :
  rlp.to_rlp Samples.fee_market_transfer
  = RList Samples.fee_market_transfer_fields /\
  List.length Samples.fee_market_transfer_fields = 12%nat /\
  rlp.encode (RList Samples.fee_market_transfer_fields)
  = Ok (tl Samples.fee_market_transfer_envelope) /\
  hd x00 Samples.fee_market_transfer_envelope = x02 /\
  encode_transaction (Tx (FeeMarket Samples.fee_market_transfer))
  = Ok (BytesObject Samples.fee_market_transfer_envelope) /\
  decode_transaction (BytesObject Samples.fee_market_transfer_envelope)
  = Ok (Tx (FeeMarket Samples.fee_market_transfer)).
Proof.
  repeat split; vm_compute; reflexivity.
Qed.

(** C9. [decode_transaction] of the empty byte string fails on reading
    the first byte, with [IndexError] and not with [InvalidBlock]. *)
Theorem empty_bytes_index_error :
  decode_transaction (BytesObject []) = Raise IndexError /\
  decode_transaction (BytesObject []) <> Raise InvalidBlock.
Proof. split; [reflexivity | discriminate]. Qed.

(** C10. [decode_transaction] returns every value that is not a byte
    string as it is, without checking that it is a legacy record: an
    access-list, fee-market or blob record is returned and not refused. *)
Theorem non_bytes_returned_unchanged :
  (forall tx : object,
     isinstance_Bytes tx = false -> decode_transaction tx = Ok tx) /\
  (forall t, decode_transaction (Tx (AccessList t)) = Ok (Tx (AccessList t))) /\
  (forall t, decode_transaction (Tx (FeeMarket t)) = Ok (Tx (FeeMarket t))) /\
  (forall t, decode_transaction (Tx (Blob t)) = Ok (Tx (Blob t))).
Proof.
  repeat split; try reflexivity.
  intros tx H. destruct tx; try reflexivity. discriminate H.
Qed.

Lemma non_bytes_returned_unchanged_witness :
  isinstance_Bytes NoneObject = false /\
  decode_transaction NoneObject = Ok NoneObject.
Proof.
  split; [reflexivity |].
  apply (proj1 non_bytes_returned_unchanged). reflexivity.
Defined.

(** * More on the envelope codec *)

(** The cases of a successful call on a byte string. *)
Lemma decode_bytes_inv (b : Bytes) (r : object) :
  decode_transaction (BytesObject b) = Ok r ->
  exists first rest,
    b = first :: rest /\
    ((Byte.to_N first = 1 /\
      exists t, rlp.decode_to AccessListTransaction.t rest = Ok t /\
                r = Tx (AccessList t)) \/
     (Byte.to_N first = 2 /\
      exists t, rlp.decode_to FeeMarketTransaction.t rest = Ok t /\
                r = Tx (FeeMarket t)) \/
     (Byte.to_N first = 3 /\
      exists t, rlp.decode_to BlobTransaction.t rest = Ok t /\
                r = Tx (Blob t))).
Proof.
  destruct b as [| first rest]; [discriminate |].
  cbn [decode_transaction]. intros H.
  exists first, rest. split; [reflexivity |].
  destruct (N.eqb_spec (Byte.to_N first) 1) as [E1 | _].
  { left. split; [exact E1 |].
    apply bind_Ok_inv in H as (t & Ht & [= <-]). exists t. auto. }
  destruct (N.eqb_spec (Byte.to_N first) 2) as [E2 | _].
  { right; left. split; [exact E2 |].
    apply bind_Ok_inv in H as (t & Ht & [= <-]). exists t. auto. }
  destruct (N.eqb_spec (Byte.to_N first) 3) as [E3 | _].
  { right; right. split; [exact E3 |].
    apply bind_Ok_inv in H as (t & Ht & [= <-]). exists t. auto. }
  discriminate H.
Qed.

(** X1. What [decode_transaction] makes of a byte string is settled by the
    first byte alone: a result is an access-list record for 0x01, a
    fee-market record for 0x02 and a blob record for 0x03, decoded from
    the bytes after the first. A byte string is never decoded into a
    legacy record, nor returned as it is. *)
Theorem decode_bytes_variant (b : Bytes) (r : object) :
  decode_transaction (BytesObject b) = Ok r ->
  exists first rest,
    b = first :: rest /\
    ((Byte.to_N first = 1 /\
      exists t, rlp.decode_to AccessListTransaction.t rest = Ok t /\
                r = Tx (AccessList t)) \/
     (Byte.to_N first = 2 /\
      exists t, rlp.decode_to FeeMarketTransaction.t rest = Ok t /\
                r = Tx (FeeMarket t)) \/
     (Byte.to_N first = 3 /\
      exists t, rlp.decode_to BlobTransaction.t rest = Ok t /\
                r = Tx (Blob t))).
Proof. apply decode_bytes_inv. Qed.

Lemma decode_bytes_variant_witness :
  decode_transaction (BytesObject Samples.fee_market_transfer_envelope)
  = Ok (Tx (FeeMarket Samples.fee_market_transfer)) /\
  exists first rest,
    Samples.fee_market_transfer_envelope = first :: rest /\
    ((Byte.to_N first = 1 /\
      exists t, rlp.decode_to AccessListTransaction.t rest = Ok t /\
                Tx (FeeMarket Samples.fee_market_transfer) = Tx (AccessList t)) \/
     (Byte.to_N first = 2 /\
      exists t, rlp.decode_to FeeMarketTransaction.t rest = Ok t /\
                Tx (FeeMarket Samples.fee_market_transfer) = Tx (FeeMarket t)) \/
     (Byte.to_N first = 3 /\
      exists t, rlp.decode_to BlobTransaction.t rest = Ok t /\
                Tx (FeeMarket Samples.fee_market_transfer) = Tx (Blob t))).
Proof.
  split; [vm_compute; reflexivity |].
  apply decode_bytes_variant. vm_compute. reflexivity.
Defined.

(** X2. A value that [decode_transaction] returns is left as it is by a
    second call: decoding twice is decoding once. *)
Theorem decode_twice (x y : object) :
  decode_transaction x = Ok y -> decode_transaction y = Ok y.
Proof.
  intros H. destruct x as [v | b | | n | s];
    try (injection H as <-; reflexivity).
  apply decode_bytes_inv in H
    as (first & rest & _ & [(_ & t & _ & ->) | [(_ & t & _ & ->) | (_ & t & _ & ->)]]);
    reflexivity.
Qed.

Lemma decode_twice_witness :
  decode_transaction (BytesObject Samples.fee_market_transfer_envelope)
  = Ok (Tx (FeeMarket Samples.fee_market_transfer)) /\
  decode_transaction (Tx (FeeMarket Samples.fee_market_transfer))
  = Ok (Tx (FeeMarket Samples.fee_market_transfer)).
Proof.
  split; [vm_compute; reflexivity |].
  apply (decode_twice (BytesObject Samples.fee_market_transfer_envelope)).
  vm_compute. reflexivity.
Defined.

(** ** Which exceptions a call raises *)

Lemma raises_only_Ok {A : Type} (e0 : exception) (a : A) :
  raises_only e0 (Ok a).
Proof. intros e H. discriminate H. Qed.

Lemma raises_only_Raise {A : Type} (e0 : exception) :
  raises_only (A := A) e0 (Raise e0).
Proof. intros e [= <-]. reflexivity. Qed.

Lemma raises_only_bind {A B : Type} (e0 : exception)
    (m : result A) (k : A -> result B) :
  raises_only e0 m -> (forall a, raises_only e0 (k a)) ->
  raises_only e0 (bind m k).
Proof.
  intros Hm Hk e H. destruct m as [a | e']; cbn [bind] in H.
  - exact (Hk a e H).
  - injection H as <-. apply Hm. reflexivity.
Qed.

Lemma raises_only_ensure (e0 : exception) (c : bool) :
  raises_only e0 (ensure c e0).
Proof. destruct c; [apply raises_only_Ok | apply raises_only_Raise]. Qed.

Lemma raises_only_of_option {A : Type} (o : option A) :
  raises_only InvalidBlock (of_option o).
Proof. destruct o; [apply raises_only_Ok | apply raises_only_Raise]. Qed.

(** Goes through a body made of [bind], [ensure], [if] and [match]. *)
Ltac raises :=
  repeat first
    [ apply raises_only_Ok
    | apply raises_only_Raise
    | apply raises_only_ensure
    | apply raises_only_of_option
    | apply from_rlp_raises
    | assumption
    | apply raises_only_bind; [| intros ?]
    | match goal with
      | |- raises_only _ (match ?x with _ => _ end) => destruct x
      end ].

Section CodecRaises.

Import rlp.

Lemma decode_length_raises (offset first : N) (rest : Bytes) :
  raises_only InvalidBlock (decode_length offset first rest).
Proof. unfold decode_length. raises. Qed.

Lemma split_payload_raises (len : N) (data : Bytes) :
  raises_only InvalidBlock (split_payload len data).
Proof. unfold split_payload. raises. Qed.

Lemma decode_joined_encodings_raises (item : Bytes -> result (RLP * Bytes)) :
  (forall data, raises_only InvalidBlock (item data)) ->
  forall turns joined,
    raises_only InvalidBlock (decode_joined_encodings item turns joined).
Proof.
  intros Hitem.
  induction turns as [| t IH]; intros joined.
  - destruct joined; cbn; raises.
  - destruct joined as [| b joined]; cbn [decode_joined_encodings]; [raises |].
    apply raises_only_bind; [apply Hitem |].
    intros [x rest]. apply raises_only_bind; [apply IH |].
    intros xs. raises.
Qed.

Lemma decode_item_raises (fuel : nat) :
  forall data, raises_only InvalidBlock (decode_item fuel data).
Proof.
  induction fuel as [| f IH]; intros data; [cbn; raises |].
  destruct data as [| b rest]; cbn [decode_item]; [raises |].
  destruct (Byte.to_N b <? 128); [raises |].
  destruct (Byte.to_N b <? 192).
  - apply raises_only_bind; [apply decode_length_raises |].
    intros [len rest1].
    apply raises_only_bind; [apply split_payload_raises |].
    intros [raw rest2]. raises.
  - apply raises_only_bind; [apply decode_length_raises |].
    intros [len rest1].
    apply raises_only_bind; [apply split_payload_raises |].
    intros [joined rest2].
    apply raises_only_bind;
      [apply decode_joined_encodings_raises, IH | intros items; raises].
Qed.

Lemma decode_raises (encoded_data : Bytes) :
  raises_only InvalidBlock (decode encoded_data).
Proof.
  unfold decode.
  apply raises_only_bind; [apply decode_item_raises |].
  intros [x rest]. raises.
Qed.

Lemma decode_to_raises (A : Type) `{ShapeStrict A} (encoded_data : Bytes) :
  raises_only InvalidBlock (decode_to A encoded_data).
Proof.
  unfold decode_to.
  apply raises_only_bind; [apply decode_raises |].
  intros raw. apply from_rlp_raises.
Qed.

Lemma encode_length_raises (offset len : N) :
  raises_only ValueError (encode_length offset len).
Proof.
  unfold encode_length.
  destruct (len <? 56); [raises |].
  destruct (len <? 2 ^ 64); raises.
Qed.

Lemma join_encodings_raises (items : list RLP) :
  Forall (fun x => raises_only ValueError (encode x)) items ->
  raises_only ValueError (join_encodings items).
Proof.
  induction 1 as [| y ys Hy _ IH]; cbn [join_encodings]; [raises |].
  apply raises_only_bind; [exact Hy | intros e].
  apply raises_only_bind; [exact IH | intros es; raises].
Qed.

Lemma encode_raises (x : RLP) : raises_only ValueError (encode x).
Proof.
  induction x as [raw | items IH] using RLP_nested_ind.
  - cbn [encode]. unfold encode_bytes.
    destruct (is_single_low raw); [raises |].
    apply raises_only_bind; [apply encode_length_raises | intros p; raises].
  - rewrite encode_RList.
    apply raises_only_bind; [apply join_encodings_raises, IH |].
    intros joined. unfold encode_sequence.
    apply raises_only_bind; [apply encode_length_raises | intros p; raises].
Qed.

End CodecRaises.

(** ** The canonical form of an integer is the only one accepted *)

Lemma from_le_bytes_cons (d : byte) (l : Bytes) :
  from_le_bytes (d :: l) = 256 * from_le_bytes l + Byte.to_N d.
Proof. reflexivity. Qed.

Lemma to_N_lt_256 (d : byte) : Byte.to_N d < 256.
Proof. pose proof (Byte.to_N_bounded d). lia. Qed.

Lemma from_le_bytes_div (d : byte) (l : Bytes) :
  from_le_bytes (d :: l) / 256 = from_le_bytes l.
Proof.
  rewrite from_le_bytes_cons.
  pose proof (to_N_lt_256 d) as Hd.
  symmetry. apply (N.div_unique _ 256 _ (Byte.to_N d)); [exact Hd | reflexivity].
Qed.

Lemma from_le_bytes_mod (d : byte) (l : Bytes) :
  from_le_bytes (d :: l) mod 256 = Byte.to_N d.
Proof.
  rewrite from_le_bytes_cons.
  pose proof (to_N_lt_256 d) as Hd.
  symmetry. apply (N.mod_unique _ 256 (from_le_bytes l)); [exact Hd | reflexivity].
Qed.

Lemma from_le_bytes_bound (l : Bytes) :
  from_le_bytes l < 256 ^ N.of_nat (List.length l).
Proof.
  induction l as [| d l IH]; [reflexivity |].
  rewrite from_le_bytes_cons.
  cbn [List.length]. rewrite Nat2N.inj_succ, N.pow_succ_r'.
  pose proof (to_N_lt_256 d). lia.
Qed.

Lemma rev_nonempty {A : Type} (l : list A) : l <> [] -> rev l <> [].
Proof.
  intros Hl E. apply (f_equal (@List.length A)) in E.
  rewrite length_rev in E. destruct l; [contradiction | discriminate E].
Qed.

Lemma leading_zero_rev_cons (d : byte) (l : Bytes) :
  l <> [] -> leading_zero (rev (d :: l)) = leading_zero (rev l).
Proof.
  intros Hl. cbn [rev]. apply leading_zero_app, rev_nonempty, Hl.
Qed.

(** Digits with a non-zero top digit stand for a non-zero integer. *)
Lemma from_le_bytes_nonzero (l : Bytes) :
  l <> [] -> leading_zero (rev l) = false -> from_le_bytes l <> 0.
Proof.
  induction l as [| d l IH]; intros Hne Htop; [contradiction |].
  rewrite from_le_bytes_cons.
  destruct l as [| d' l'].
  - cbn in Htop |- *. apply N.eqb_neq in Htop. exact Htop.
  - rewrite leading_zero_rev_cons in Htop by discriminate.
    assert (from_le_bytes (d' :: l') <> 0) by (apply IH; [discriminate | exact Htop]).
    lia.
Qed.

Lemma to_le_from_le (l : Bytes) :
  leading_zero (rev l) = false ->
  forall fuel, from_le_bytes l < 2 ^ N.of_nat fuel ->
  to_le_bytes_fuel fuel (from_le_bytes l) = l.
Proof.
  induction l as [| d l IH]; intros Htop fuel Hfuel.
  - destruct fuel; reflexivity.
  - assert (Hnz : from_le_bytes (d :: l) <> 0)
      by (apply from_le_bytes_nonzero; [discriminate | exact Htop]).
    destruct fuel as [| f]; [change (2 ^ N.of_nat 0) with 1 in Hfuel; lia |].
    cbn [to_le_bytes_fuel].
    destruct (N.eqb_spec (from_le_bytes (d :: l)) 0) as [E | _]; [contradiction |].
    f_equal.
    + unfold byte_of_N. rewrite from_le_bytes_mod, Byte.of_to_N. reflexivity.
    + rewrite from_le_bytes_div. apply IH.
      * destruct l as [| d' l']; [reflexivity |].
        rewrite leading_zero_rev_cons in Htop by discriminate.
        exact Htop.
      * rewrite <- (from_le_bytes_div d l). apply div256_lt_pow2, Hfuel.
Qed.

Theorem to_be_from_be (b : Bytes) :
  leading_zero b = false -> to_be_bytes (from_be_bytes b) = b.
Proof.
  intros Hb. unfold to_be_bytes.
  rewrite <- (rev_involutive b) at 1 2.
  rewrite from_be_bytes_rev.
  rewrite to_le_from_le.
  - apply rev_involutive.
  - rewrite rev_involutive. exact Hb.
  - apply size_fuel.
Qed.

Lemma from_be_bytes_bound (b : Bytes) :
  from_be_bytes b < 256 ^ N.of_nat (List.length b).
Proof.
  rewrite <- (rev_involutive b) at 1.
  rewrite from_be_bytes_rev, <- (length_rev b).
  apply from_le_bytes_bound.
Qed.

(** ** What the codec decodes starts with the encoding of the value *)

Section RlpCanonical.

Import rlp.

Lemma ensure_true (c : bool) (e : exception) (u : unit) :
  ensure c e = Ok u -> c = true.
Proof. destruct c; [reflexivity | discriminate]. Qed.

Lemma split_payload_inv (len : N) (data raw rest : Bytes) :
  split_payload len data = Ok (raw, rest) ->
  data = raw ++ rest /\ N.of_nat (List.length raw) = len.
Proof.
  unfold split_payload. intros H.
  apply bind_Ok_inv in H as (u & Hle & [= <- <-]).
  apply ensure_true, N.leb_le in Hle.
  split; [symmetry; apply firstn_skipn |].
  rewrite length_firstn. lia.
Qed.

(** What [decode_length] reads, [encode_length] writes. *)
Lemma encode_decode_length (offset : N) (b : byte) (rest : Bytes)
    (len : N) (rest' : Bytes) :
  offset = 0x80 \/ offset = 0xC0 ->
  offset <= Byte.to_N b < offset + 64 ->
  decode_length offset (Byte.to_N b) rest = Ok (len, rest') ->
  exists tail,
    encode_length offset len = Ok (b :: tail) /\ rest = tail ++ rest'.
Proof.
  intros Hoff Hb. unfold decode_length, encode_length.
  destruct (N.ltb_spec (Byte.to_N b - offset) 56) as [Hshort | Hlong].
  - intros [= <- <-]. exists [].
    rewrite (proj2 (N.ltb_lt _ _) Hshort).
    replace (offset + (Byte.to_N b - offset)) with (Byte.to_N b) by lia.
    rewrite byte_of_N_to_N. split; reflexivity.
  - intros H.
    apply bind_Ok_inv in H as (u1 & Hk & H).
    apply bind_Ok_inv in H as (u2 & Hz & H).
    apply bind_Ok_inv in H as (u3 & H56 & [= <- <-]).
    apply ensure_true, N.leb_le in Hk.
    apply ensure_true, negb_true_iff in Hz.
    apply ensure_true, N.leb_le in H56.
    set (k := N.to_nat (Byte.to_N b - offset - 55)) in *.
    set (lb := firstn k rest) in *.
    assert (Hlen : List.length lb = k) by (unfold lb; rewrite length_firstn; lia).
    assert (Hk8 : (k <= 8)%nat) by lia.
    exists lb.
    replace (from_be_bytes lb <? 56) with false
      by (symmetry; apply N.ltb_ge; exact H56).
    assert (Hfit : from_be_bytes lb < 2 ^ 64).
    { pose proof (from_be_bytes_bound lb) as Hbound.
      rewrite Hlen in Hbound.
      assert (256 ^ N.of_nat k <= 256 ^ N.of_nat 8)
        by (apply N.pow_le_mono_r; lia).
      rewrite pow_256_8 in *. lia. }
    rewrite (proj2 (N.ltb_lt _ _) Hfit).
    rewrite (to_be_from_be lb Hz), Hlen.
    replace (offset + 55 + N.of_nat k) with (Byte.to_N b) by lia.
    rewrite byte_of_N_to_N.
    split; [reflexivity |].
    symmetry. apply firstn_skipn.
Qed.

(** The property proved by induction on the fuel: an item that is read
    was written by [encode]. *)
Definition written_back (item : Bytes -> result (RLP * Bytes)) : Prop :=
  forall data x rest,
    item data = Ok (x, rest) ->
    exists out, encode x = Ok out /\ data = out ++ rest.

Lemma join_decode_joined (item : Bytes -> result (RLP * Bytes)) :
  written_back item ->
  forall turns joined items,
    decode_joined_encodings item turns joined = Ok items ->
    join_encodings items = Ok joined.
Proof.
  intros Hitem.
  induction turns as [| t IH]; intros joined items H.
  - destruct joined; [injection H as <-; reflexivity | discriminate H].
  - destruct joined as [| b joined]; [injection H as <-; reflexivity |].
    cbn [decode_joined_encodings] in H.
    apply bind_Ok_inv in H as ([x rest] & Hx & H).
    apply bind_Ok_inv in H as (xs & Hxs & [= <-]).
    apply Hitem in Hx as (out & Hout & ->).
    cbn [join_encodings]. rewrite Hout, (IH _ _ Hxs). reflexivity.
Qed.

Lemma decode_item_written_back (fuel : nat) : written_back (decode_item fuel).
Proof.
  induction fuel as [| f IH]; intros data x rest H; [discriminate H |].
  destruct data as [| b data]; [discriminate H |].
  cbn [decode_item] in H.
  pose proof (to_N_lt_256 b) as Hb.
  destruct (N.ltb_spec (Byte.to_N b) 128) as [Hlow | Hge128].
  { injection H as <- <-. exists [b]. split; [| reflexivity].
    cbn [encode]. unfold encode_bytes. cbn [is_single_low].
    rewrite (proj2 (N.ltb_lt _ _) Hlow). reflexivity. }
  destruct (N.ltb_spec (Byte.to_N b) 192) as [Hlt192 | Hge192].
  - apply bind_Ok_inv in H as ([len rest1] & Hlen & H).
    apply bind_Ok_inv in H as ([raw rest2] & Hsplit & H).
    apply bind_Ok_inv in H as (u & Hsingle & [= <- <-]).
    apply ensure_true, negb_true_iff in Hsingle.
    apply encode_decode_length in Hlen as (tail & Henc & ->); [| auto | lia].
    apply split_payload_inv in Hsplit as (-> & Hraw).
    exists ((b :: tail) ++ raw). split.
    + cbn [encode]. unfold encode_bytes.
      rewrite Hsingle, Hraw, Henc. reflexivity.
    + cbn [app]. rewrite <- app_assoc. reflexivity.
  - apply bind_Ok_inv in H as ([len rest1] & Hlen & H).
    apply bind_Ok_inv in H as ([joined rest2] & Hsplit & H).
    apply bind_Ok_inv in H as (items & Hitems & [= <- <-]).
    apply encode_decode_length in Hlen as (tail & Henc & ->); [| auto | lia].
    apply split_payload_inv in Hsplit as (-> & Hjoined).
    apply (join_decode_joined _ IH) in Hitems.
    exists ((b :: tail) ++ joined). split.
    + rewrite encode_RList, Hitems. cbn [bind].
      unfold encode_sequence. rewrite Hjoined, Henc. reflexivity.
    + cbn [app]. rewrite <- app_assoc. reflexivity.
Qed.

(** A decoded value has an encoding, and the byte string starts with it. *)
Theorem encode_decode (encoded_data : Bytes) (x : RLP) :
  decode encoded_data = Ok x ->
  exists out rest, encode x = Ok out /\ encoded_data = out ++ rest.
Proof.
  unfold decode. intros H.
  apply bind_Ok_inv in H as ([y rest] & Hitem & [= ->]).
  apply decode_item_written_back in Hitem as (out & Hout & ->).
  exists out, rest. split; [exact Hout | reflexivity].
Qed.

End RlpCanonical.

(** ** Each shape is strict *)

Lemma FixedUint_new_Some (MAX_VALUE value : N) (a : FixedUint MAX_VALUE) :
  FixedUint_new MAX_VALUE value = Some a -> uint_value a = value.
Proof.
  unfold FixedUint_new.
  destruct (Sumbool.sumbool_of_bool (value <=? MAX_VALUE)); [| discriminate].
  intros [= <-]. reflexivity.
Qed.

Lemma FixedBytes_new_Some (LENGTH : nat) (b : Bytes) (a : FixedBytes LENGTH) :
  FixedBytes_new LENGTH b = Some a -> fixed_bytes a = b.
Proof.
  unfold FixedBytes_new.
  destruct (Sumbool.sumbool_of_bool (Nat.eqb (List.length b) LENGTH));
    [| discriminate].
  intros [= <-]. reflexivity.
Qed.

Lemma of_option_Ok {A : Type} (o : option A) (a : A) :
  of_option o = Ok a -> o = Some a.
Proof. destruct o; [intros [= <-]; reflexivity | discriminate]. Qed.

Section StrictShapes.

Import rlp.

Lemma uint_from_rlp_raises (raw : RLP) :
  raises_only InvalidBlock (uint_from_rlp raw).
Proof. unfold uint_from_rlp. raises. Qed.

Lemma uint_from_rlp_inv (raw : RLP) (n : N) :
  uint_from_rlp raw = Ok n -> RBytes (to_be_bytes n) = raw.
Proof.
  destruct raw as [b | items]; [| discriminate].
  cbn [uint_from_rlp]. intros H.
  apply bind_Ok_inv in H as (u & Hz & [= <-]).
  apply ensure_true, negb_true_iff in Hz.
  rewrite (to_be_from_be b Hz). reflexivity.
Qed.

#[export] Instance ShapeStrict_Uint : ShapeStrict Uint.
Proof.
  split.
  - intros raw. apply uint_from_rlp_raises.
  - intros raw n. apply uint_from_rlp_inv.
Qed.

#[export] Instance ShapeStrict_FixedUint (MAX_VALUE : N) :
  ShapeStrict (FixedUint MAX_VALUE).
Proof.
  split.
  - intros raw. cbn [from_rlp Shape_FixedUint].
    apply raises_only_bind; [apply uint_from_rlp_raises | intros v; raises].
  - intros raw a. cbn [from_rlp to_rlp Shape_FixedUint]. intros H.
    apply bind_Ok_inv in H as (v & Hv & Hnew).
    apply of_option_Ok, FixedUint_new_Some in Hnew. rewrite Hnew.
    apply uint_from_rlp_inv, Hv.
Qed.

#[export] Instance ShapeStrict_Bytes : ShapeStrict Bytes.
Proof.
  split.
  - intros raw. cbn [from_rlp Shape_Bytes]. raises.
  - intros [b | items] a; cbn [from_rlp to_rlp Shape_Bytes];
      [intros [= <-]; reflexivity | discriminate].
Qed.

#[export] Instance ShapeStrict_FixedBytes (LENGTH : nat) :
  ShapeStrict (FixedBytes LENGTH).
Proof.
  split.
  - intros raw. cbn [from_rlp Shape_FixedBytes]. raises.
  - intros [b | items] a; cbn [from_rlp to_rlp Shape_FixedBytes];
      [| discriminate].
    intros H. apply of_option_Ok, FixedBytes_new_Some in H.
    rewrite H. reflexivity.
Qed.

#[export] Instance ShapeStrict_Bytes0_or_Address : ShapeStrict (Bytes0 + Address).
Proof.
  split.
  - intros raw. cbn [from_rlp Shape_Bytes0_or_Address].
    destruct raw as [b | items]; [| raises].
    destruct (Nat.eqb (List.length b) 0); [raises |].
    destruct (Nat.eqb (List.length b) 20); raises.
  - intros [b | items] a; cbn [from_rlp to_rlp Shape_Bytes0_or_Address];
      [| discriminate].
    destruct (Nat.eqb (List.length b) 0).
    + intros H. apply bind_Ok_inv in H as (empty & He & [= <-]).
      apply of_option_Ok, FixedBytes_new_Some in He.
      rewrite He. reflexivity.
    + destruct (Nat.eqb (List.length b) 20); [| discriminate].
      intros H. apply bind_Ok_inv in H as (address & Ha & [= <-]).
      apply of_option_Ok, FixedBytes_new_Some in Ha.
      rewrite Ha. reflexivity.
Qed.

Lemma from_rlp_items_raises (T : Type) `{ShapeStrict T} (items : list RLP) :
  raises_only InvalidBlock (from_rlp_items (from_rlp (A := T)) items).
Proof.
  induction items as [| x xs IH]; cbn [from_rlp_items]; [raises |].
  apply raises_only_bind; [apply from_rlp_raises | intros y].
  apply raises_only_bind; [exact IH | intros ys; raises].
Qed.

Lemma from_rlp_items_inv (T : Type) `{ShapeStrict T} (items : list RLP) :
  forall values : list T,
    from_rlp_items from_rlp items = Ok values -> map to_rlp values = items.
Proof.
  induction items as [| x xs IH]; intros values Hv; cbn [from_rlp_items] in Hv.
  - injection Hv as <-. reflexivity.
  - apply bind_Ok_inv in Hv as (y & Hy & Hv).
    apply bind_Ok_inv in Hv as (ys & Hys & [= <-]).
    cbn [map]. rewrite (to_from_rlp _ _ Hy), (IH _ Hys). reflexivity.
Qed.

#[export] Instance ShapeStrict_Tuple (T : Type) `{ShapeStrict T} :
  ShapeStrict (Tuple T).
Proof.
  split.
  - intros [b | items]; cbn [from_rlp Shape_Tuple]; [raises |].
    apply from_rlp_items_raises; assumption.
  - intros [b | items] values; cbn [from_rlp to_rlp Shape_Tuple];
      [discriminate |].
    intros Hv. f_equal. apply from_rlp_items_inv; assumption.
Qed.

(** Splits the payload until the shape of a record is reached, then
    goes through the fields. *)
Ltac split_payload_of H :=
  repeat match type of H with
         | match ?x with _ => _ end = Ok _ => destruct x; try discriminate H
         end.

Ltac fields_of H :=
  repeat (let a := fresh "a" in
          let Ha := fresh "Ha" in
          apply bind_Ok_inv in H as (a & Ha & H);
          apply to_from_rlp in Ha);
  injection H as <-; subst; reflexivity.

#[export] Instance ShapeStrict_pair (A B : Type)
    `{ShapeStrict A} `{ShapeStrict B} : ShapeStrict (A * B).
Proof.
  split.
  - intros raw. cbn [from_rlp Shape_pair]. raises.
  - intros raw p. cbn [from_rlp to_rlp Shape_pair]. intros Hp.
    split_payload_of Hp. fields_of Hp.
Qed.

#[export] Instance ShapeStrict_LegacyTransaction :
  ShapeStrict LegacyTransaction.t.
Proof.
  split.
  - intros raw. cbn [from_rlp Shape_LegacyTransaction]. raises.
  - intros raw t. cbn [from_rlp to_rlp Shape_LegacyTransaction]. intros Ht.
    split_payload_of Ht. fields_of Ht.
Qed.

#[export] Instance ShapeStrict_AccessListTransaction :
  ShapeStrict AccessListTransaction.t.
Proof.
  split.
  - intros raw. cbn [from_rlp Shape_AccessListTransaction]. raises.
  - intros raw t. cbn [from_rlp to_rlp Shape_AccessListTransaction]. intros Ht.
    split_payload_of Ht. fields_of Ht.
Qed.

#[export] Instance ShapeStrict_FeeMarketTransaction :
  ShapeStrict FeeMarketTransaction.t.
Proof.
  split.
  - intros raw. cbn [from_rlp Shape_FeeMarketTransaction]. raises.
  - intros raw t. cbn [from_rlp to_rlp Shape_FeeMarketTransaction]. intros Ht.
    split_payload_of Ht. fields_of Ht.
Qed.

#[export] Instance ShapeStrict_BlobTransaction :
  ShapeStrict BlobTransaction.t.
Proof.
  split.
  - intros raw. cbn [from_rlp Shape_BlobTransaction]. raises.
  - intros raw t. cbn [from_rlp to_rlp Shape_BlobTransaction]. intros Ht.
    split_payload_of Ht. fields_of Ht.
Qed.

(** What [decode_to] returns has an encoding. *)
Theorem encode_decode_to (A : Type) `{ShapeStrict A}
    (encoded_data : Bytes) (a : A) :
  decode_to A encoded_data = Ok a ->
  exists out, encode (to_rlp a) = Ok out.
Proof.
  unfold decode_to. intros Ha.
  apply bind_Ok_inv in Ha as (raw & Hraw & Ha).
  rewrite (to_from_rlp _ _ Ha).
  apply encode_decode in Hraw as (out & rest & Hout & _).
  exists out. exact Hout.
Qed.

End StrictShapes.

(** ** How the two functions compose *)

Section Compose.

Import rlp.

(** A byte is known by its value. *)
Lemma byte_of_value (b : byte) (n : N) : Byte.to_N b = n -> b = byte_of_N n.
Proof. intros <-. symmetry. apply byte_of_N_to_N. Qed.

(** The dispatch on a first byte that is no type byte. *)
Lemma decode_no_type_byte (first : byte) (rest : Bytes) :
  Byte.to_N first <> 1 -> Byte.to_N first <> 2 -> Byte.to_N first <> 3 ->
  decode_transaction (BytesObject (first :: rest)) = Raise InvalidBlock.
Proof.
  intros H1 H2 H3. cbn [decode_transaction].
  apply N.eqb_neq in H1, H2, H3. rewrite H1, H2, H3. reflexivity.
Qed.

(** Whatever [encode_transaction] returns, [decode_transaction] takes
    back to the value that was encoded. *)
Lemma decode_of_encode (x e : object) :
  encode_transaction x = Ok e -> decode_transaction e = Ok x.
Proof.
  destruct x as [[t | t | t | t] | b | | n | s]; cbn [encode_transaction];
    try discriminate.
  - intros [= <-]. reflexivity.
  - intros H. apply bind_Ok_inv in H as (payload & Henc & [= <-]).
    cbn. rewrite (decode_to_encode _ _ _ Henc). reflexivity.
  - intros H. apply bind_Ok_inv in H as (payload & Henc & [= <-]).
    cbn. rewrite (decode_to_encode _ _ _ Henc). reflexivity.
  - intros H. apply bind_Ok_inv in H as (payload & Henc & [= <-]).
    cbn. rewrite (decode_to_encode _ _ _ Henc). reflexivity.
Qed.

(** Whatever [decode_transaction] makes of a byte string has an
    envelope. *)
Lemma encode_of_decode (b : Bytes) (r : object) :
  decode_transaction (BytesObject b) = Ok r ->
  exists envelope, encode_transaction r = Ok (BytesObject envelope).
Proof.
  intros H.
  apply decode_bytes_inv in H
    as (first & rest & -> &
        [(Hf & t & Ht & ->) | [(Hf & t & Ht & ->) | (Hf & t & Ht & ->)]]);
    apply encode_decode_to in Ht as (out & Hout); try typeclasses eauto;
    cbn [encode_transaction]; rewrite Hout; eexists; reflexivity.
Qed.

(** The encoding of a list starts with a byte of 0xc0 or more. *)
Lemma encode_list_first_byte (items : list RLP) (out : Bytes) :
  encode (RList items) = Ok out ->
  exists h tail, out = h :: tail /\ 0xC0 <= Byte.to_N h.
Proof.
  rewrite encode_RList. intros H.
  apply bind_Ok_inv in H as (joined & _ & H).
  unfold encode_sequence in H.
  apply bind_Ok_inv in H as (prefix & Hp & [= <-]).
  apply (decode_encode_length _ _ _ (or_intror eq_refl)) in Hp
    as (h & t & -> & Hh & _).
  exists h, (t ++ joined). split; [reflexivity | lia].
Qed.

(** A byte string that is empty or starts with a byte below 0xc0 does not
    decode to a list. *)
Lemma decode_not_a_list (data : Bytes) :
  match data with
  | [] => True
  | b :: _ => Byte.to_N b < 0xC0
  end ->
  decode data = Raise InvalidBlock \/ exists raw, decode data = Ok (RBytes raw).
Proof.
  intros Hdata.
  destruct (decode data) as [x | e] eqn:E.
  - right. destruct x as [raw | items]; [exists raw; reflexivity |].
    exfalso. apply encode_decode in E as (out & rest & E & ->).
    apply encode_list_first_byte in E as (h & tail & -> & Hh).
    cbn [app] in Hdata. lia.
  - left. f_equal. exact (decode_raises data e E).
Qed.

End Compose.

(** X3. Every record that [decode_transaction] returns for a byte string
    can be encoded again, and the envelope it is encoded to decodes to
    that same record. *)
Theorem decoded_reencodes (b : Bytes) (r : object) :
  decode_transaction (BytesObject b) = Ok r ->
  exists envelope,
    encode_transaction r = Ok (BytesObject envelope) /\
    decode_transaction (BytesObject envelope) = Ok r.
Proof.
  intros H. apply encode_of_decode in H as (envelope & He).
  exists envelope. split; [exact He | apply decode_of_encode, He].
Qed.

Lemma decoded_reencodes_witness :
  decode_transaction (BytesObject Samples.fee_market_envelope_without_recipient)
  = Ok (Tx (FeeMarket MoreSamples.fee_market_creation_without_data)) /\
  exists envelope,
    encode_transaction (Tx (FeeMarket MoreSamples.fee_market_creation_without_data))
    = Ok (BytesObject envelope) /\
    decode_transaction (BytesObject envelope)
    = Ok (Tx (FeeMarket MoreSamples.fee_market_creation_without_data)).
Proof.
  split; [vm_compute; reflexivity |].
  apply (decoded_reencodes Samples.fee_market_envelope_without_recipient).
  vm_compute. reflexivity.
Defined.

(** X4. [encode_transaction] is injective: two values with the same
    result are the same value. *)
Theorem encode_injective (x y e : object) :
  encode_transaction x = Ok e -> encode_transaction y = Ok e -> x = y.
Proof.
  intros Hx Hy.
  apply decode_of_encode in Hx, Hy.
  rewrite Hx in Hy. injection Hy as ->. reflexivity.
Qed.

Lemma encode_injective_witness :
  encode_transaction (Tx (FeeMarket Samples.fee_market_transfer))
  = Ok (BytesObject Samples.fee_market_transfer_envelope) /\
  Tx (FeeMarket Samples.fee_market_transfer)
  = Tx (FeeMarket Samples.fee_market_transfer).
Proof.
  split; [vm_compute; reflexivity |].
  apply (encode_injective _ _ (BytesObject Samples.fee_market_transfer_envelope));
    vm_compute; reflexivity.
Defined.

(** X5. [decode_transaction] fails on byte strings only: with
    [IndexError] on the empty one, and with [InvalidBlock] on any other
    it refuses. *)
Theorem decode_failure_cases (x : object) (e : exception) :
  decode_transaction x = Raise e ->
  (x = BytesObject [] /\ e = IndexError) \/
  (exists first rest, x = BytesObject (first :: rest) /\ e = InvalidBlock).
Proof.
  destruct x as [v | [| first rest] | | n | s]; try discriminate.
  - intros [= <-]. left. split; reflexivity.
  - intros H. right. exists first, rest. split; [reflexivity |].
    revert H. cbn [decode_transaction].
    destruct (Byte.to_N first =? 1).
    { apply raises_only_bind;
        [apply decode_to_raises; typeclasses eauto | intros t; raises]. }
    destruct (Byte.to_N first =? 2).
    { apply raises_only_bind;
        [apply decode_to_raises; typeclasses eauto | intros t; raises]. }
    destruct (Byte.to_N first =? 3).
    { apply raises_only_bind;
        [apply decode_to_raises; typeclasses eauto | intros t; raises]. }
    raises.
Qed.

Lemma decode_failure_cases_witness :
  decode_transaction (BytesObject Samples.blob_envelope_without_recipient)
  = Raise InvalidBlock /\
  ((BytesObject Samples.blob_envelope_without_recipient = BytesObject [] /\
    InvalidBlock = IndexError) \/
   (exists first rest,
      BytesObject Samples.blob_envelope_without_recipient
      = BytesObject (first :: rest) /\
      InvalidBlock = InvalidBlock)).
Proof.
  split; [vm_compute; reflexivity |].
  apply decode_failure_cases. vm_compute. reflexivity.
Defined.

(** X6. [encode_transaction] raises its bare [Exception] for the values
    that are none of the four records, and for no other. *)
Theorem exception_only_outside_union (x : object) (msg : string) :
  encode_transaction x = Raise (Exception_ msg) <->
  isinstance_Transaction x = false /\
  msg = ("Unable to encode transaction of type " ++ type_repr x)%string.
Proof.
  split.
  - destruct x as [[t | t | t | t] | b | | n | s]; cbn [encode_transaction];
      try discriminate;
      try (intros [= <-]; split; reflexivity);
      intros H; exfalso;
      assert (Hraise : raises_only ValueError
                (payload <- rlp.encode (rlp.to_rlp t) ;;
                 Ok (BytesObject (x01 :: payload))) /\
              raises_only ValueError
                (payload <- rlp.encode (rlp.to_rlp t) ;;
                 Ok (BytesObject (x02 :: payload))) /\
              raises_only ValueError
                (payload <- rlp.encode (rlp.to_rlp t) ;;
                 Ok (BytesObject (x03 :: payload))))
        by (repeat split;
            (apply raises_only_bind; [apply encode_raises | intros p; raises]));
      destruct Hraise as (R1 & R2 & R3);
      first [ specialize (R1 _ H) | specialize (R2 _ H) | specialize (R3 _ H) ];
      discriminate.
  - intros (Hx & ->).
    destruct x; try discriminate Hx; reflexivity.
Qed.

Lemma exception_only_outside_union_witness :
  encode_transaction NoneObject
  = Raise (Exception_ "Unable to encode transaction of type <class 'NoneType'>") /\
  isinstance_Transaction NoneObject = false.
Proof.
  split; [reflexivity |].
  apply (proj1 (exception_only_outside_union NoneObject
            "Unable to encode transaction of type <class 'NoneType'>")).
  reflexivity.
Defined.

Section Rejected.

Import rlp.

(** A payload read as a record of another number of fields. *)
Lemma decode_to_other_shape (A B : Type) `{ShapeOk A} `{Shape B}
    (t : A) (payload : Bytes) :
  encode (to_rlp t) = Ok payload ->
  from_rlp (A := B) (to_rlp t) = Raise InvalidBlock ->
  decode_to B payload = Raise InvalidBlock.
Proof.
  intros Henc Hshape. unfold decode_to.
  rewrite (decode_encode _ _ Henc). exact Hshape.
Qed.

End Rejected.

(** Either the byte is the type byte of the envelope, which the
    hypothesis excludes, or the payload is read as another record. *)
Ltac retag_branch t p Hp Hn :=
  first
    [ exfalso; apply Hn;
      match goal with E : Byte.to_N _ = _ |- _ => rewrite E end;
      reflexivity
    | match goal with
      | |- bind (rlp.decode_to ?B p) _ = _ =>
          let H := fresh in
          pose proof (decode_to_other_shape _ B t p Hp eq_refl) as H;
          rewrite H; reflexivity
      end ].

(** X7. The type byte is bound to the payload: an envelope whose first
    byte is replaced by any other byte is refused with [InvalidBlock],
    since the three records have 11, 12 and 14 fields. *)
Theorem retagged_envelope_rejected (x : object) (first first' : byte)
    (payload : Bytes) :
  encode_transaction x = Ok (BytesObject (first :: payload)) ->
  first' <> first ->
  decode_transaction (BytesObject (first' :: payload)) = Raise InvalidBlock.
Proof.
  intros Henc Hne.
  assert (Hn : Byte.to_N first' <> Byte.to_N first).
  { intros E. apply Hne.
    rewrite <- (byte_of_N_to_N first'), E. apply byte_of_N_to_N. }
  destruct x as [[t | t | t | t] | b | | n | s]; cbn [encode_transaction] in Henc;
    try discriminate Henc;
    apply bind_Ok_inv in Henc as (p & Hp & [= <- <-]);
    cbn [decode_transaction];
    (destruct (N.eqb_spec (Byte.to_N first') 1) as [E | _];
     [retag_branch t p Hp Hn |]);
    (destruct (N.eqb_spec (Byte.to_N first') 2) as [E | _];
     [retag_branch t p Hp Hn |]);
    (destruct (N.eqb_spec (Byte.to_N first') 3) as [E | _];
     [retag_branch t p Hp Hn |]);
    reflexivity.
Qed.

Lemma retagged_envelope_rejected_witness :
  encode_transaction (Tx (FeeMarket Samples.fee_market_transfer))
  = Ok (BytesObject (x02 :: tl Samples.fee_market_transfer_envelope)) /\
  x01 <> x02 /\
  decode_transaction (BytesObject MoreSamples.retagged_envelope)
  = Raise InvalidBlock.
Proof.
  split; [vm_compute; reflexivity |].
  split; [discriminate |].
  apply (retagged_envelope_rejected
           (Tx (FeeMarket Samples.fee_market_transfer)) x02 x01).
  - vm_compute. reflexivity.
  - discriminate.
Defined.

(** X8. The structural encoding of a legacy record, given as a byte
    string, is refused with [InvalidBlock]: its first byte is 0xc0 or
    more, and [decode_transaction] takes a legacy transaction as a record
    only. *)
Theorem legacy_encoding_rejected (t : LegacyTransaction.t) (out : Bytes) :
  rlp.encode (rlp.to_rlp t) = Ok out ->
  decode_transaction (BytesObject out) = Raise InvalidBlock.
Proof.
  intros Henc.
  apply encode_list_first_byte in Henc as (h & tail & -> & Hh).
  apply decode_no_type_byte; lia.
Qed.

Lemma legacy_encoding_rejected_witness :
  rlp.encode (rlp.to_rlp Samples.legacy_creation)
  = Ok Samples.legacy_creation_encoding /\
  decode_transaction (BytesObject Samples.legacy_creation_encoding)
  = Raise InvalidBlock.
Proof.
  split; [vm_compute; reflexivity |].
  apply (legacy_encoding_rejected Samples.legacy_creation).
  vm_compute. reflexivity.
Defined.

(** X9. What follows the type byte has to be an encoded list: a byte
    string of one byte only, or whose second byte is below 0xc0, is
    refused with [InvalidBlock], whatever its first byte. *)
Theorem non_list_payload_rejected (first : byte) (rest : Bytes) :
  match rest with
  | [] => True
  | b :: _ => Byte.to_N b < 0xC0
  end ->
  decode_transaction (BytesObject (first :: rest)) = Raise InvalidBlock.
Proof.
  intros Hrest. cbn [decode_transaction]. unfold rlp.decode_to.
  destruct (decode_not_a_list rest Hrest) as [E | (raw & E)]; rewrite E;
    destruct (Byte.to_N first =? 1); try reflexivity;
    destruct (Byte.to_N first =? 2); try reflexivity;
    destruct (Byte.to_N first =? 3); reflexivity.
Qed.

Lemma non_list_payload_rejected_witness :
  Byte.to_N x80 < 0xC0 /\
  decode_transaction (BytesObject [x02; x80]) = Raise InvalidBlock.
Proof.
  split; [reflexivity |].
  apply (non_list_payload_rejected x02 [x80]). reflexivity.
Defined.

(** X11. A blob envelope needs a recipient: when the sixth item of the
    payload, the recipient, is a byte string of another length than 20,
    the empty no-recipient marker among them, [decode_transaction]
    refuses the envelope with [InvalidBlock]. *)
Theorem blob_without_recipient_rejected (items : list RLP)
    (recipient payload : Bytes) :
  nth_error items 5 = Some (RBytes recipient) ->
  List.length recipient <> 20%nat ->
  rlp.encode (RList items) = Ok payload ->
  decode_transaction (BytesObject (x03 :: payload)) = Raise InvalidBlock.
Proof.
  intros Hnth Hlen Henc.
  cbn [decode_transaction].
  change (Byte.to_N x03 =? 1) with false.
  change (Byte.to_N x03 =? 2) with false.
  change (Byte.to_N x03 =? 3) with true.
  cbv iota. unfold rlp.decode_to.
  rewrite (decode_encode _ _ Henc). cbn [bind].
  destruct (rlp.from_rlp (A := BlobTransaction.t) (RList items))
    as [t | e] eqn:E.
  - exfalso. apply to_from_rlp in E.
    cbn [rlp.to_rlp Shape_BlobTransaction] in E.
    injection E as <-. cbn [nth_error] in Hnth.
    injection Hnth as <-.
    apply Hlen, (FixedBytes_length 20).
  - cbn [bind]. f_equal. exact (from_rlp_raises _ _ E).
Qed.

Lemma blob_without_recipient_rejected_witness :
  nth_error Samples.blob_payload_without_recipient 5 = Some (RBytes []) /\
  List.length (@nil byte) <> 20%nat /\
  rlp.encode (RList Samples.blob_payload_without_recipient)
  = Ok (tl Samples.blob_envelope_without_recipient) /\
  decode_transaction
    (BytesObject (x03 :: tl Samples.blob_envelope_without_recipient))
  = Raise InvalidBlock.
Proof.
  split; [reflexivity |].
  split; [discriminate |].
  split; [vm_compute; reflexivity |].
  apply (blob_without_recipient_rejected
           Samples.blob_payload_without_recipient []).
  - reflexivity.
  - discriminate.
  - vm_compute. reflexivity.
Defined.

(** ** The recipient of a blob transaction *)

(** A 0x03 envelope whose recipient item is not 20 bytes long. *)
Lemma blob_recipient_item_checked (items : list RLP)
    (recipient payload : Bytes) :
  nth_error items 5 = Some (RBytes recipient) ->
  List.length recipient <> 20%nat ->
  rlp.encode (RList items) = Ok payload ->
  decode_transaction (BytesObject (x03 :: payload)) = Raise InvalidBlock.
Proof.
  intros Hnth Hlen Henc.
  cbn [decode_transaction].
  change (Byte.to_N x03 =? 1) with false.
  change (Byte.to_N x03 =? 2) with false.
  change (Byte.to_N x03 =? 3) with true.
  cbv iota. unfold rlp.decode_to.
  rewrite (decode_encode _ _ Henc). cbn [bind].
  destruct (rlp.from_rlp (A := BlobTransaction.t) (RList items))
    as [t | e] eqn:E.
  - exfalso. apply to_from_rlp in E.
    cbn [rlp.to_rlp Shape_BlobTransaction] in E.
    injection E as <-. cbn [nth_error] in Hnth.
    injection Hnth as <-.
    apply Hlen, (FixedBytes_length 20).
  - cbn [bind]. f_equal. exact (from_rlp_raises _ _ E).
Qed.

(** C5 as stated fails: a blob record is built with the no-recipient
    marker in its [to] field, where no 20-byte address is, and neither
    the constructor nor the encoder refuses it. *)
Lemma blob_built_without_recipient :
  BlobTransaction_init
    (Samples.u64 1 eq_refl) (Samples.u256 0 eq_refl) 1 100 21000
    (inl Samples.empty_marker) (Samples.u256 0 eq_refl) [] []
    (Samples.u256 3 eq_refl) [] (Samples.u256 0 eq_refl)
    (Samples.u256 1 eq_refl) (Samples.u256 1 eq_refl)
  = Ok RuntimeSamples.blob_creation /\
  BlobTransactionInstance.to RuntimeSamples.blob_creation
  = inl Samples.empty_marker /\
  fixed_bytes Samples.empty_marker = [] /\
  encode_blob_instance RuntimeSamples.blob_creation
  = Ok (BytesObject Samples.blob_envelope_without_recipient).
Proof.
  repeat split; vm_compute; reflexivity.
Qed.

(** C5, amended. [BlobTransaction] declares its [to] field as an
    [Address], but the declaration is checked neither when a record is
    built nor when it is encoded: the constructor builds a record from
    any recipient, the no-recipient marker included, and the encoder
    returns 0x03 followed by the encoding of its fourteen fields (as
    [encode_transaction] does for a record of the declared type). The
    marker is refused when decoding: [decode_transaction] fails with
    [InvalidBlock] on the envelope of a record built with it. *)
Theorem blob_recipient_checked_on_decode :
  (forall tx : BlobTransactionInstance.t,
     BlobTransaction_init
       (BlobTransactionInstance.chain_id tx)
       (BlobTransactionInstance.nonce tx)
       (BlobTransactionInstance.max_priority_fee_per_gas tx)
       (BlobTransactionInstance.max_fee_per_gas tx)
       (BlobTransactionInstance.gas tx)
       (BlobTransactionInstance.to tx)
       (BlobTransactionInstance.value tx)
       (BlobTransactionInstance.data tx)
       (BlobTransactionInstance.access_list tx)
       (BlobTransactionInstance.max_fee_per_blob_gas tx)
       (BlobTransactionInstance.blob_versioned_hashes tx)
       (BlobTransactionInstance.y_parity tx)
       (BlobTransactionInstance.r tx)
       (BlobTransactionInstance.s tx) = Ok tx) /\
  (forall tx : BlobTransactionInstance.t,
     rlp_size.encoded_length (RList (blob_instance_fields tx)) < 2 ^ 64 ->
     exists payload,
       rlp.encode (RList (blob_instance_fields tx)) = Ok payload /\
       encode_blob_instance tx = Ok (BytesObject (x03 :: payload))) /\
  (forall t : BlobTransaction.t,
     encode_blob_instance (blob_instance_of t)
     = encode_transaction (Tx (Blob t))) /\
  (forall (tx : BlobTransactionInstance.t) (marker : Bytes0)
          (envelope : Bytes),
     BlobTransactionInstance.to tx = inl marker ->
     encode_blob_instance tx = Ok (BytesObject envelope) ->
     decode_transaction (BytesObject envelope) = Raise InvalidBlock).
Proof.
  split; [| split; [| split]].
  - intros []. reflexivity.
  - intros tx Hfit.
    destruct (encode_total _ Hfit) as (payload & Henc & _).
    exists payload. split; [exact Henc |].
    unfold encode_blob_instance. rewrite Henc. reflexivity.
  - intros t. reflexivity.
  - intros tx marker envelope Hto Henc.
    unfold encode_blob_instance in Henc.
    apply bind_Ok_inv in Henc as (payload & Hp & [= <-]).
    apply (blob_recipient_item_checked
             (blob_instance_fields tx) (fixed_bytes marker) payload).
    + unfold blob_instance_fields. cbn [nth_error]. rewrite Hto. reflexivity.
    + rewrite (FixedBytes_length 0 marker). discriminate.
    + exact Hp.
Qed.

Lemma blob_recipient_checked_on_decode_witness :
  rlp_size.encoded_length
    (RList (blob_instance_fields RuntimeSamples.blob_creation)) < 2 ^ 64 /\
  BlobTransactionInstance.to RuntimeSamples.blob_creation
  = inl Samples.empty_marker /\
  encode_blob_instance RuntimeSamples.blob_creation
  = Ok (BytesObject Samples.blob_envelope_without_recipient) /\
  (exists payload,
     rlp.encode (RList (blob_instance_fields RuntimeSamples.blob_creation))
     = Ok payload /\
     encode_blob_instance RuntimeSamples.blob_creation
     = Ok (BytesObject (x03 :: payload))) /\
  decode_transaction (BytesObject Samples.blob_envelope_without_recipient)
  = Raise InvalidBlock.
Proof.
  destruct blob_recipient_checked_on_decode as (_ & Henc & _ & Hdec).
  split; [vm_compute; reflexivity |].
  split; [reflexivity |].
  split; [vm_compute; reflexivity |].
  split.
  - apply Henc. vm_compute. reflexivity.
  - apply (Hdec RuntimeSamples.blob_creation Samples.empty_marker).
    + reflexivity.
    + vm_compute. reflexivity.
Defined.
